(** * gmsad.salt: retrieving the Kerberos salt of a principal

    A shallow embedding of [gmsad/salt.py] and of the part of the
    asn1crypto library that the module calls, followed by the properties of
    the module.

    Conventions of the embedding:
    - Python [bytes] are lists of [byte]; Python [int] is [Z];
    - Python [str] is [string].  The strings of this module only ever travel
      as ASN.1 GeneralString, which asn1crypto encodes as Latin-1, so a
      character is one of the 256 values of [ascii];
    - an exception is a value of [exn], and a call that may raise returns a
      [result];
    - the ASN.1 classes of the module ([Sequence] and [SequenceOf] subclasses
      with their [_fields]) are values of [spec], copied field by field.

    asn1crypto is a dependency of the module, not part of it.  Its functions
    are modelled as far as the module relies on them: definite-length DER,
    explicit tags, children of [Sequence] and [SequenceOf] decoded when they
    are asked for, [VOID] for an absent optional field.  Outside the model:
    BER indefinite lengths, and the forms of GeneralizedTime other than the
    one the module writes; both raise here. *)

From Stdlib Require Import ZArith List String Ascii Lia Bool.
From Stdlib Require Import Strings.Byte DecimalString.
Import ListNotations.

#[local] Set Warnings "-register-all".

Local Open Scope string_scope.
Local Open Scope list_scope.
Local Open Scope Z_scope.

(** ** Exceptions and results *)

(** Why an asn1crypto call raised [ValueError]. *)
Inductive value_error : Type :=
| InsufficientData
| NonMinimalTag
| IndefiniteLength
| UnknownElement (class_ method tag : Z)
| WrongClass (expected found : Z)
| WrongMethod (expected found : Z)
| WrongTag (expected found : Z)
| FieldMismatch
| MissingField (name : string)
| BadValue
| NegativeBufsize.

(** Why a call raised [TypeError]. *)
Inductive type_error : Type :=
| NotBytes
| NotIterable
| NotSubscriptable
| WrongType.

Inductive exn : Type :=
| ValueError (why : value_error)
| TypeError (why : type_error)
| KeyError (key : string)
| StructError
| OSError
| Exception (msg : string).

Inductive result (A : Type) : Type :=
| Ok (a : A)
| Raise (e : exn).

Arguments Ok {A} a.
Arguments Raise {A} e.

Definition bind {A B : Type} (r : result A) (k : A -> result B) : result B :=
  match r with
  | Ok a => k a
  | Raise e => Raise e
  end.

Declare Scope result_scope.
Delimit Scope result_scope with result.
Notation "x <- r ;; k" := (bind r (fun x => k))
  (at level 61, r at next level, right associativity) : result_scope.
Notation "' p <- r ;; k" := (bind r (fun x => let p := x in k))
  (at level 61, p pattern, r at next level, right associativity) : result_scope.
Local Open Scope result_scope.

Fixpoint mapM {A B : Type} (f : A -> result B) (l : list A) : result (list B) :=
  match l with
  | [] => Ok []
  | a :: l' => b <- f a ;; bs <- mapM f l' ;; Ok (b :: bs)
  end.

(** ** Bytes and integers *)

Definition bytes : Type := list byte.

Definition Z_of_byte (b : byte) : Z := Z.of_N (Byte.to_N b).

(** [bytes([z])]: raises [ValueError] outside [range(0, 256)]. *)
Definition chr_cls (z : Z) : result byte :=
  if z <? 0 then Raise (ValueError BadValue)
  else match Byte.of_N (Z.to_N z) with
       | Some b => Ok b
       | None => Raise (ValueError BadValue)
       end.

(** The low eight bits of [z] as a byte. *)
Definition low_byte (z : Z) : byte :=
  match Byte.of_N (Z.to_N (z mod 256)) with
  | Some b => b
  | None => Byte.x00
  end.

Definition len {A : Type} (l : list A) : Z := Z.of_nat (List.length l).

(** [s[:n]] and [s[n:]] for [0 <= n]. *)
Definition take {A : Type} (n : Z) (l : list A) : list A := firstn (Z.to_nat n) l.
Definition drop {A : Type} (n : Z) (l : list A) : list A := skipn (Z.to_nat n) l.

(** [int.from_bytes(b, 'big', signed=False)]. *)
Definition int_from_bytes (b : bytes) : Z :=
  fold_left (fun acc x => acc * 256 + Z_of_byte x) b 0.

(** [int.from_bytes(b, 'big', signed=True)]. *)
Definition int_from_bytes_signed (b : bytes) : Z :=
  let u := int_from_bytes b in
  let w := 8 * len b in
  if (0 <? w) && (2 ^ (w - 1) <=? u) then u - 2 ^ w else u.

(** [v.to_bytes(width, 'big')] of the residue of [v] modulo [256 ^ width]. *)
Fixpoint to_bytes_be (width : nat) (v : Z) : bytes :=
  match width with
  | O => []
  | S w => to_bytes_be w (v / 256) ++ [low_byte v]
  end.

(** [int.bit_length]. *)
Definition bit_length (v : Z) : Z :=
  if Z.abs v =? 0 then 0 else Z.log2 (Z.abs v) + 1.

(** [math.ceil(bits / 8) or 1]. *)
Definition width_of_bits (bits : Z) : nat :=
  Z.to_nat (Z.max 1 ((bits + 7) / 8)).

(** asn1crypto.util.int_to_bytes(value, signed): the shortest big-endian
    encoding, two's complement when [signed]. *)
Definition int_to_bytes (signed : bool) (value : Z) : bytes :=
  let bits_required :=
    if signed then
      let bits := if value <? 0 then bit_length (value + 1) else bit_length value in
      if bits mod 8 =? 0 then bits + 1 else bits
    else bit_length value in
  to_bytes_be (width_of_bits bits_required) value.

(** ** The tag-length-value layer (asn1crypto.parser) *)

(** The identifier of an element: class, method (0 primitive, 1
    constructed) and tag number. *)
Record ident : Type := mkIdent {
  class_ : Z;
  method : Z;
  tag : Z
}.

(** One parsed element: its identifier and its contents. *)
Record tlv : Type := mkTlv {
  t_ident : ident;
  t_contents : bytes
}.

Definition UNIVERSAL : Z := 0.
Definition APPLICATION : Z := 1.
Definition CONTEXT : Z := 2.

(** The continuation octets of a tag number of 31 or more, base 128. *)
Fixpoint _parse_long_tag (acc : Z) (data : bytes) : result (Z * bytes) :=
  match data with
  | [] => Raise (ValueError InsufficientData)
  | b :: rest =>
      let num := Z_of_byte b in
      if (num =? 128) && (acc =? 0) then Raise (ValueError NonMinimalTag)
      else
        let acc' := acc * 128 + Z.land num 127 in
        if Z.shiftr num 7 =? 0 then Ok (acc', rest)
        else _parse_long_tag acc' rest
  end.

(** The tag number: the low five bits of the first octet, or the
    continuation octets that follow it when those bits are all set. *)
Definition _parse_tag (first_octet : Z) (data : bytes) : result (Z * bytes) :=
  if Z.land first_octet 31 =? 31 then
    '(t, d) <- _parse_long_tag 0 data ;;
    if t <? 31 then Raise (ValueError NonMinimalTag) else Ok (t, d)
  else Ok (Z.land first_octet 31, data).

(** The length: one octet below 128, or the count of the octets that hold
    it.  asn1crypto also reads BER indefinite lengths; here an indefinite
    length raises. *)
Definition _parse_length (data : bytes) : result (Z * bytes) :=
  match data with
  | [] => Raise (ValueError InsufficientData)
  | b :: rest =>
      let length_octet := Z_of_byte b in
      if Z.shiftr length_octet 7 =? 0 then Ok (Z.land length_octet 127, rest)
      else
        let length_octets := Z.land length_octet 127 in
        if length_octets =? 0 then Raise (ValueError IndefiniteLength)
        else if len rest <? length_octets then Raise (ValueError InsufficientData)
        else Ok (int_from_bytes (take length_octets rest), drop length_octets rest)
  end.

(** [_parse]: reads one element off the front of [data] and returns it with
    the bytes that follow it. *)
Definition _parse (data : bytes) : result (tlv * bytes) :=
  match data with
  | [] => Raise (ValueError InsufficientData)
  | first :: data =>
      let first_octet := Z_of_byte first in
      let constructed := Z.land (Z.shiftr first_octet 5) 1 in
      '(tg, data) <- _parse_tag first_octet data ;;
      '(n, data) <- _parse_length data ;;
      if len data <? n then Raise (ValueError InsufficientData)
      else Ok (mkTlv (mkIdent (Z.shiftr first_octet 6) constructed tg) (take n data),
               drop n data)
  end.

(** The elements that fill [data] exactly, in order ([_parse] applied until
    the data are used up, as [_parse_children] does).  Every element takes at
    least two bytes, so [length data] rounds are enough. *)
Fixpoint _parse_all_fuel (fuel : nat) (data : bytes) : result (list tlv) :=
  match data with
  | [] => Ok []
  | _ :: _ =>
      match fuel with
      | O => Raise (ValueError InsufficientData)
      | S fuel' =>
          '(x, rest) <- _parse data ;;
          xs <- _parse_all_fuel fuel' rest ;;
          Ok (x :: xs)
      end
  end.

Definition _parse_all (data : bytes) : result (list tlv) :=
  _parse_all_fuel (List.length data) data.

(** [_dump_header]: identifier and length octets for [contents]. *)
Definition _dump_tag (id_num tg : Z) : result bytes :=
  if 31 <=? tg then Raise (ValueError BadValue)
  else b <- chr_cls (Z.lor id_num tg) ;; Ok [b].

Definition _dump_length (length : Z) : result bytes :=
  if length <=? 127 then b <- chr_cls length ;; Ok [b]
  else
    let length_bytes := int_to_bytes false length in
    b <- chr_cls (Z.lor 128 (len length_bytes)) ;;
    Ok (b :: length_bytes).

Definition _dump_header (i : ident) (contents : bytes) : result bytes :=
  let id_num := Z.lor (Z.shiftl (class_ i) 6) (Z.shiftl (method i) 5) in
  t <- _dump_tag id_num (tag i) ;;
  l <- _dump_length (len contents) ;;
  Ok (t ++ l).

(** Header followed by contents. *)
Definition dump_tlv (i : ident) (contents : bytes) : result bytes :=
  h <- _dump_header i contents ;;
  Ok (h ++ contents).

(** ** ASN.1 classes (asn1crypto.core) *)

(** A field of a [Sequence]: [(name, spec, {'explicit': n, 'optional': b})]. *)
Record field_of (S : Type) : Type := mkField {
  f_name : string;
  f_spec : S;
  f_explicit : Z;
  f_optional : bool
}.

Arguments mkField {S} f_name f_spec f_explicit f_optional.
Arguments f_name {S} f.
Arguments f_spec {S} f.
Arguments f_explicit {S} f.
Arguments f_optional {S} f.

(** The value classes the module uses.  [BitString] carries its [_map],
    [Sequence] its [_fields], [SequenceOf] its [_child_spec]. *)
Inductive spec : Type :=
| Integer
| BitString (_map : list (Z * string))
| OctetString
| GeneralString
| GeneralizedTime
| Sequence (_fields : list (field_of spec))
| SequenceOf (_child_spec : spec).

Definition field : Type := field_of spec.

(** A class as [load] and [dump] see it: the class-level [explicit] tag,
    when the class declares one, around the value class. *)
Record asn1_class : Type := mkClass {
  explicit : list (Z * Z);
  base : spec
}.

(** The universal tag and the method of a value class. *)
Definition spec_tag (s : spec) : Z :=
  match s with
  | Integer => 2
  | BitString _ => 3
  | OctetString => 4
  | GeneralString => 27
  | GeneralizedTime => 24
  | Sequence _ => 16
  | SequenceOf _ => 16
  end.

Definition spec_method (s : spec) : Z :=
  match s with
  | Sequence _ | SequenceOf _ => 1
  | _ => 0
  end.

Definition spec_ident (s : spec) : ident :=
  mkIdent UNIVERSAL (spec_method s) (spec_tag s).

(** Python values: what [.native] returns and what a field is set to. *)
Inductive native : Type :=
| NNone
| NInt (z : Z)
| NBytes (b : bytes)
| NStr (s : string)
| NSet (members : list native)
| NDatetime (year month day hour minute second : Z)
| NList (l : list native)
| NDict (d : list (string * native)).

(** A decoded value: [VOID] for an optional field that is absent, or a value
    class with its contents.  Children are decoded when they are asked for. *)
Inductive obj : Type :=
| VOID
| Value (s : spec) (contents : bytes).

Definition check (b : bool) (e : exn) : result unit :=
  if b then Ok tt else Raise e.

(** The explicit tags of an element, outermost first: each must be
    constructed, of the expected class and number, and hold one element. *)
Fixpoint _unwrap_explicit (expl : list (Z * Z)) (x : tlv) : result tlv :=
  match expl with
  | [] => Ok x
  | (expected_class, expected_tag) :: expl' =>
      let i := t_ident x in
      _ <- check (class_ i =? expected_class)
                 (ValueError (WrongClass expected_class (class_ i))) ;;
      _ <- check (method i =? 1) (ValueError (WrongMethod 1 (method i))) ;;
      _ <- check (tag i =? expected_tag)
                 (ValueError (WrongTag expected_tag (tag i))) ;;
      '(inner, _) <- _parse (t_contents x) ;;
      _unwrap_explicit expl' inner
  end.

(** [_build] with a spec: the element, once its explicit tags are taken off,
    must carry the universal identifier of the value class.  The result is
    the contents of the value. *)
Definition _build_contents (expl : list (Z * Z)) (s : spec) (x : tlv) : result bytes :=
  inner <- _unwrap_explicit expl x ;;
  let i := t_ident inner in
  _ <- check (class_ i =? UNIVERSAL) (ValueError (WrongClass UNIVERSAL (class_ i))) ;;
  _ <- check (method i =? spec_method s)
             (ValueError (WrongMethod (spec_method s) (method i))) ;;
  _ <- check (tag i =? spec_tag s) (ValueError (WrongTag (spec_tag s) (tag i))) ;;
  Ok (t_contents inner).

Definition _build (expl : list (Z * Z)) (s : spec) (x : tlv) : result obj :=
  contents <- _build_contents expl s x ;;
  Ok (Value s contents).

(** [cls.load(encoded_data)]: bytes after the first element are ignored
    ([strict=False]). *)
Definition load (cls : asn1_class) (encoded_data : bytes) : result obj :=
  '(x, _) <- _parse encoded_data ;;
  _build (explicit cls) (base cls) x.

(** [load] applied to a Python value: anything but [bytes] is a [TypeError]. *)
Definition load_native (cls : asn1_class) (encoded_data : native) : result obj :=
  match encoded_data with
  | NBytes b => load cls b
  | _ => Raise (TypeError NotBytes)
  end.

(** The tags of [_UNIVERSAL_SPECS]. *)
Definition _UNIVERSAL_SPECS : list Z :=
  [1; 2; 3; 4; 5; 6; 7; 8; 9; 10; 11; 12; 13; 16; 17; 18; 19; 20; 21; 22;
   23; 24; 25; 26; 27; 28; 29; 30].

(** [Any.load(encoded_data)]: with no spec, the element is built as the
    universal class of its tag number, whatever its class; a tag number with
    no universal class raises. *)
Definition Any_load (encoded_data : bytes) : result tlv :=
  '(x, _) <- _parse encoded_data ;;
  let i := t_ident x in
  if existsb (Z.eqb (tag i)) _UNIVERSAL_SPECS then Ok x
  else Raise (ValueError (UnknownElement (class_ i) (method i) (tag i))).

(** [Sequence._parse_children], second half: the elements of the contents
    against [_fields].  An optional field whose identifier is not that of the
    next element is absent; an element left over, or a required field with no
    element left, raises.  A required field takes the next element as it is:
    its tags are checked when the child is built. *)
Fixpoint _match_fields (fields : list field) (parts : list tlv)
  : result (list (option tlv)) :=
  match fields with
  | [] =>
      match parts with
      | [] => Ok []
      | _ :: _ => Raise (ValueError FieldMismatch)
      end
  | f :: fields' =>
      match parts with
      | [] =>
          if f_optional f then
            rest <- _match_fields fields' [] ;; Ok (None :: rest)
          else Raise (ValueError (MissingField (f_name f)))
      | p :: parts' =>
          let same_id :=
            (class_ (t_ident p) =? CONTEXT) && (tag (t_ident p) =? f_explicit f) in
          if f_optional f && negb same_id then
            rest <- _match_fields fields' parts ;; Ok (None :: rest)
          else
            rest <- _match_fields fields' parts' ;; Ok (Some p :: rest)
      end
  end.

Definition _parse_children (fields : list field) (contents : bytes)
  : result (list (option tlv)) :=
  parts <- _parse_all contents ;;
  _match_fields fields parts.

(** The child of a field: [VOID] when absent, built from its element
    otherwise. *)
Definition _lazy_child (f : field) (child : option tlv) : result obj :=
  match child with
  | None => Ok VOID
  | Some x => _build [(CONTEXT, f_explicit f)] (f_spec f) x
  end.

Fixpoint _find_child (key : string) (fields : list field) (children : list (option tlv))
  : result obj :=
  match fields, children with
  | f :: fields', c :: children' =>
      if String.eqb (f_name f) key then _lazy_child f c
      else _find_child key fields' children'
  | _, _ => Raise (KeyError key)
  end.

(** [o[key]] on a [Sequence]. *)
Definition getitem (o : obj) (key : string) : result obj :=
  match o with
  | Value (Sequence fields) contents =>
      children <- _parse_children fields contents ;;
      _find_child key fields children
  | _ => Raise (TypeError NotSubscriptable)
  end.

(** [iter(o)] on a [SequenceOf]: the elements are split when the iteration
    starts and each child is built when the loop reaches it.  [VOID] is an
    empty iterable. *)
Definition iter (o : obj) : result (list (result obj)) :=
  match o with
  | VOID => Ok []
  | Value (SequenceOf child) contents =>
      parts <- _parse_all contents ;;
      Ok (map (_build [] child) parts)
  | _ => Raise (TypeError NotIterable)
  end.

(** *** Native values *)

(** The bits of one octet, most significant first. *)
Definition bits_of_byte (b : byte) : list bool :=
  map (fun i => Z.testbit (Z_of_byte b) i) [7; 6; 5; 4; 3; 2; 1; 0].

Definition byte_of_bits (bits : list bool) : byte :=
  low_byte (fold_left (fun acc (b : bool) => 2 * acc + (if b then 1 else 0)) bits 0).

(** [l] without its trailing elements that satisfy [p] ([rstrip]). *)
Fixpoint rstrip_list {A : Type} (p : A -> bool) (l : list A) : list A :=
  match l with
  | [] => []
  | a :: l' =>
      match rstrip_list p l' with
      | [] => if p a then [] else [a]
      | t => a :: t
      end
  end.

(** [BitString.native] with a [_map]: the set of the names of the bits that
    are set, a bit with no name standing by its index. *)
Definition bitstring_native (_map : list (Z * string)) (contents : bytes) : result native :=
  match contents with
  | [] => Raise (ValueError BadValue)
  | unused :: data =>
      let unused_bits := Z_of_byte unused in
      let all_bits := flat_map bits_of_byte data in
      if (7 <? unused_bits) || (len all_bits <? unused_bits) then Raise (ValueError BadValue)
      else
        let bits := take (len all_bits - unused_bits) all_bits in
        let name_of (index : Z) : native :=
          match find (fun kv => fst kv =? index) _map with
          | Some kv => NStr (snd kv)
          | None => NInt index
          end in
        let indexed := combine (map Z.of_nat (seq 0 (List.length bits))) bits in
        Ok (NSet (map (fun ib => name_of (fst ib)) (filter snd indexed)))
  end.

Definition digit_of_byte (b : byte) : option Z :=
  let z := Z_of_byte b in
  if (48 <=? z) && (z <=? 57) then Some (z - 48) else None.

Fixpoint number_of_digits (acc : Z) (l : bytes) : option Z :=
  match l with
  | [] => Some acc
  | b :: l' =>
      match digit_of_byte b with
      | Some d => number_of_digits (10 * acc + d) l'
      | None => None
      end
  end.

(** [GeneralizedTime.native] for the form [YYYYMMDDHHMMSSZ], the one the
    module writes; other forms of GeneralizedTime are not modelled and
    raise. *)
Definition generalizedtime_native (contents : bytes) : result native :=
  let field (from width : Z) := number_of_digits 0 (take width (drop from contents)) in
  if negb (len contents =? 15) then Raise (ValueError BadValue)
  else
    match field 0 4, field 4 2, field 6 2, field 8 2, field 10 2, field 12 2,
          drop 14 contents with
    | Some y, Some mo, Some d, Some h, Some mi, Some s, [z] =>
        if Z_of_byte z =? 90 then Ok (NDatetime y mo d h mi s)
        else Raise (ValueError BadValue)
    | _, _, _, _, _, _, _ => Raise (ValueError BadValue)
    end.

(** The native value of each child of a [Sequence], by field name; [child_native]
    gives the native value of a child from its class and contents. *)
Fixpoint natives_of_children (child_native : spec -> bytes -> result native)
    (fs : list field) (cs : list (option tlv)) {struct fs}
  : result (list (string * native)) :=
  match fs, cs with
  | f :: fs', c :: cs' =>
      v <- match c with
           | None => Ok NNone
           | Some x =>
               c <- _build_contents [(CONTEXT, f_explicit f)] (f_spec f) x ;;
               child_native (f_spec f) c
           end ;;
      rest <- natives_of_children child_native fs' cs' ;;
      Ok ((f_name f, v) :: rest)
  | _, _ => Ok []
  end.

(** [.native] of a value of class [s] with contents [contents]; a
    [Sequence] gives a dict by field name and a [SequenceOf] a list, both
    with the native values of all their children. *)
Fixpoint native_of (s : spec) (contents : bytes) {struct s} : result native :=
  match s with
  | Integer => Ok (NInt (int_from_bytes_signed contents))
  | BitString _map => bitstring_native _map contents
  | OctetString => Ok (NBytes contents)
  | GeneralString => Ok (NStr (string_of_list_byte contents))
  | GeneralizedTime => generalizedtime_native contents
  | SequenceOf child =>
      parts <- _parse_all contents ;;
      l <- mapM (fun x => c <- _build_contents [] child x ;; native_of child c) parts ;;
      Ok (NList l)
  | Sequence fields =>
      children <- _parse_children fields contents ;;
      d <- natives_of_children native_of fields children ;;
      Ok (NDict d)
  end.

(** [o.native]. *)
Definition obj_native (o : obj) : result native :=
  match o with
  | VOID => Ok NNone
  | Value s contents => native_of s contents
  end.

(** *** Encoding *)

Fixpoint chunks8 (fuel : nat) (bits : list bool) : list (list bool) :=
  match fuel, bits with
  | S fuel', _ :: _ => firstn 8 bits :: chunks8 fuel' (skipn 8 bits)
  | _, _ => []
  end.

(** [BitString.set] with a [_map] and a set of names: one bit per index
    below [_size], trailing zero bits removed, padded to whole octets, the
    count of padding bits in front. *)
Definition bitstring_contents (_map : list (Z * string)) (value : list native) : bytes :=
  let _size := fold_left Z.max (map fst _map) (-1) + 1 in
  let named (index : Z) : bool :=
    match find (fun kv => fst kv =? index) _map with
    | Some kv =>
        existsb (fun v => match v with NStr s => String.eqb s (snd kv) | _ => false end) value
    | None => false
    end in
  let bits := map (fun i => named (Z.of_nat i)) (seq 0 (Z.to_nat _size)) in
  let stripped := rstrip_list negb bits in
  let extra_bits := (8 - len stripped mod 8) mod 8 in
  let padded := stripped ++ repeat false (Z.to_nat extra_bits) in
  low_byte extra_bits :: map byte_of_bits (chunks8 (List.length padded) padded).

Fixpoint assoc {A : Type} (key : string) (d : list (string * A)) : option A :=
  match d with
  | [] => None
  | (k, v) :: d' => if String.eqb k key then Some v else assoc key d'
  end.

(** One element in its explicit tags, outermost first. *)
Definition wrap_explicit (expl : list (Z * Z)) (inner : bytes) : result bytes :=
  fold_right (fun ct acc => body <- acc ;; dump_tlv (mkIdent (fst ct) 1 (snd ct)) body)
             (Ok inner) expl.

(** The fields of a [Sequence] that are set in the dict [d], each inside
    its explicit tag, in the order of [_fields]; [contents] gives the contents
    of a child.  A field that was never set (or is [None]) is left out. *)
Fixpoint dump_children (contents : spec -> native -> result bytes)
    (d : list (string * native)) (fs : list field) {struct fs} : result bytes :=
  match fs with
  | [] => Ok []
  | f :: fs' =>
      this <- match assoc (f_name f) d with
              | None | Some NNone => Ok []
              | Some v =>
                  c <- contents (f_spec f) v ;;
                  inner <- dump_tlv (spec_ident (f_spec f)) c ;;
                  wrap_explicit [(CONTEXT, f_explicit f)] inner
              end ;;
      rest <- dump_children contents d fs' ;;
      Ok (this ++ rest)
  end.

(** The contents octets of [value] as class [s]. *)
Fixpoint contents_of (s : spec) (value : native) {struct s} : result bytes :=
  match s with
  | Integer =>
      match value with
      | NInt z => Ok (int_to_bytes true z)
      | _ => Raise (TypeError WrongType)
      end
  | BitString _map =>
      match value with
      | NSet names => Ok (bitstring_contents _map names)
      | _ => Raise (TypeError WrongType)
      end
  | OctetString =>
      match value with
      | NBytes b => Ok b
      | _ => Raise (TypeError WrongType)
      end
  | GeneralString | GeneralizedTime =>
      match value with
      | NStr str => Ok (list_byte_of_string str)
      | _ => Raise (TypeError WrongType)
      end
  | SequenceOf child =>
      match value with
      | NList l =>
          parts <- mapM (fun v => c <- contents_of child v ;;
                                  dump_tlv (spec_ident child) c) l ;;
          Ok (List.concat parts)
      | _ => Raise (TypeError WrongType)
      end
  | Sequence fields =>
      match value with
      | NDict d => dump_children contents_of d fields
      | _ => Raise (TypeError WrongType)
      end
  end.

(** [cls(value).dump()]. *)
Definition dump (cls : asn1_class) (value : native) : result bytes :=
  c <- contents_of (base cls) value ;;
  inner <- dump_tlv (spec_ident (base cls)) c ;;
  wrap_explicit (explicit cls) inner.

(** *** Python values *)

(** [d[key] = v] on a dict. *)
Fixpoint dict_set (d : list (string * native)) (key : string) (v : native)
  : list (string * native) :=
  match d with
  | [] => [(key, v)]
  | (k, x) :: d' => if String.eqb k key then (k, v) :: d' else (k, x) :: dict_set d' key v
  end.

Definition setitem (o : native) (key : string) (v : native) : native :=
  match o with
  | NDict d => NDict (dict_set d key v)
  | _ => o
  end.

(** [v[key]] for a string key. *)
Definition native_getitem (v : native) (key : string) : result native :=
  match v with
  | NDict d =>
      match assoc key d with
      | Some x => Ok x
      | None => Raise (KeyError key)
      end
  | _ => Raise (TypeError NotSubscriptable)
  end.

(** [iter(v)]. *)
Definition native_iter (v : native) : result (list native) :=
  match v with
  | NList l => Ok l
  | NSet l => Ok l
  | NDict d => Ok (map (fun kv => NStr (fst kv)) d)
  | NBytes b => Ok (map (fun x => NInt (Z_of_byte x)) b)
  | NStr s => Ok (map (fun c => NStr (String c EmptyString)) (list_ascii_of_string s))
  | NNone | NInt _ | NDatetime _ _ _ _ _ _ => Raise (TypeError NotIterable)
  end.

(** [v == n] for an [int] n. *)
Definition eq_int (v : native) (n : Z) : bool :=
  match v with
  | NInt z => z =? n
  | _ => false
  end.

(** ['%d' % z]. *)
Definition decimal (z : Z) : string := NilZero.string_of_int (Z.to_int z).

(** [str(v)] for [None], an [int] or a [str]; the module passes no other
    kind of value. *)
Definition py_str (v : native) : string :=
  match v with
  | NNone => "None"
  | NInt z => decimal z
  | NStr s => s
  | _ => ""
  end.

(** A [for] loop whose body may [return]: [Some a] is [return a], [None]
    is falling off the end of the loop. *)
Fixpoint for_each {X A : Type} (it : list X) (body : X -> result (option A))
  : result (option A) :=
  match it with
  | [] => Ok None
  | x :: it' =>
      r <- body x ;;
      match r with
      | Some a => Ok (Some a)
      | None => for_each it' body
      end
  end.

(** ** The module gmsad.salt *)

Definition APPLICATION_TAG : Z := 1.
Definition AS_REQ_TAG_NUMBER : Z := 10.
Definition AS_REP_TAG_NUMBER : Z := 11.
Definition KRB_ERROR_TAG_NUMBER : Z := 30.

Definition AS_MSG_TYPE : Z := 10.

Definition NT_PRINCIPAL : Z := 1.
Definition NT_SRV_INST : Z := 2.

Definition KDC_ERR_PREAUTH_REQUIRED : Z := 25.

Definition PA_ETYPE_INFO2 : Z := 19.

Definition AES128_CTS_HMAC_SHA1_96_ENC_TYPE : Z := 17.
Definition AES256_CTS_HMAC_SHA1h96_ENC_TYPE : Z := 18.

Definition TIME_T_ZERO : string := "19700101000000Z".

Definition INT32_MAX_VAL : Z := 0x7FFFFFFF.

Definition KERBEROS_PORT : Z := 88.

(** [(name, spec, {'explicit': n})] and
    [(name, spec, {'explicit': n, 'optional': True})]. *)
Definition required (name : string) (s : spec) (n : Z) : field := mkField name s n false.
Definition optional (name : string) (s : spec) (n : Z) : field := mkField name s n true.

Definition EncryptedData : spec :=
  Sequence [
    required "etype" Integer 0;
    optional "kvno" Integer 1;
    required "cipher" OctetString 2
  ].

Definition HostAddress : spec :=
  Sequence [
    required "addr-type" Integer 0;
    required "address" OctetString 1
  ].

Definition HostAddresses : spec := SequenceOf HostAddress.

Definition Realm : spec := GeneralString.

Definition KerberosString : spec := GeneralString.

Definition KerberosStrings : spec := SequenceOf KerberosString.

Definition PrincipalName : spec :=
  Sequence [
    required "name-type" Integer 0;
    required "name-string" KerberosStrings 1
  ].

Definition KDCOptions : spec :=
  BitString [
    (0, "reserved");
    (1, "forwardable");
    (2, "forwarded");
    (3, "proxiable");
    (4, "proxy");
    (5, "allow-postdate");
    (6, "postdated");
    (7, "unused7");
    (8, "renewable");
    (9, "unused9");
    (10, "unused10");
    (11, "opt-hardware-auth");
    (12, "unused12");
    (13, "unused13");
    (15, "unused15");
    (26, "disable-transited-check");
    (27, "renewable-ok");
    (28, "enc-tkt-in-skey");
    (30, "renew");
    (31, "validate")
  ].

Definition Integers : spec := SequenceOf Integer.

Definition KerberosTime : spec := GeneralizedTime.

Definition Ticket : spec :=
  Sequence [
    required "tkt-vno" Integer 0;
    required "realm" Realm 1;
    required "sname" PrincipalName 2;
    required "enc-part" EncryptedData 3
  ].

Definition Tickets : spec := SequenceOf Ticket.

Definition KDC_REQ_BODY : spec :=
  Sequence [
    required "kdc-options" KDCOptions 0;
    optional "cname" PrincipalName 1;
    required "realm" Realm 2;
    optional "sname" PrincipalName 3;
    optional "from" KerberosTime 4;
    required "till" KerberosTime 5;
    optional "rtime" KerberosTime 6;
    required "nonce" Integer 7;
    optional "etype" Integers 8;
    optional "addresses" HostAddresses 9;
    optional "enc-authorization-data" EncryptedData 10;
    optional "additional-tickets" Tickets 11
  ].

Definition PA_DATA : spec :=
  Sequence [
    required "padata-type" Integer 1;
    required "padata-value" OctetString 2
  ].

Definition PA_DATA_SEQUENCE_OF : spec := SequenceOf PA_DATA.

Definition KRB_KDC_REQ : spec :=
  Sequence [
    required "pvno" Integer 1;
    required "msg-type" Integer 2;
    optional "padata" PA_DATA_SEQUENCE_OF 3;
    required "req-body" KDC_REQ_BODY 4
  ].

Definition KRB_KDC_REP : spec :=
  Sequence [
    required "pvno" Integer 0;
    required "msg-type" Integer 1;
    optional "padata" PA_DATA_SEQUENCE_OF 2;
    required "crealm" Realm 3;
    required "cname" PrincipalName 4;
    required "ticket" Ticket 5;
    required "enc-part" EncryptedData 6
  ].

Definition KRB_AS_REQ : asn1_class :=
  mkClass [(APPLICATION_TAG, AS_REQ_TAG_NUMBER)] KRB_KDC_REQ.

Definition KRB_AS_REP : asn1_class :=
  mkClass [(APPLICATION_TAG, AS_REP_TAG_NUMBER)] KRB_KDC_REP.

Definition KRB_ERROR : asn1_class :=
  mkClass [(APPLICATION_TAG, KRB_ERROR_TAG_NUMBER)]
    (Sequence [
       required "pvno" Integer 0;
       required "msg-type" Integer 1;
       optional "ctime" KerberosTime 2;
       optional "cusec" Integer 3;
       required "stime" KerberosTime 4;
       required "susec" Integer 5;
       required "error-code" Integer 6;
       optional "crealm" Realm 7;
       optional "cname" PrincipalName 8;
       required "realm" Realm 9;
       required "sname" PrincipalName 10;
       optional "e-text" KerberosString 11;
       optional "e-data" OctetString 12
     ]).

Definition ETYPE_INFO2_ENTRY : spec :=
  Sequence [
    required "etype" Integer 0;
    optional "salt" KerberosString 1;
    optional "s2kparams" OctetString 2
  ].

Definition ETYPE_INFO2 : spec := SequenceOf ETYPE_INFO2_ENTRY.

(** A class with no class-level tag, as [load] takes it. *)
Definition plain (s : spec) : asn1_class := mkClass [] s.

(** *** Strings *)

Definition mem_char (c : ascii) (chars : string) : bool :=
  existsb (Ascii.eqb c) (list_ascii_of_string chars).

(** [s.rstrip(chars)]: [s] without its trailing characters that occur in
    [chars]. *)
Definition rstrip (chars : string) (s : string) : string :=
  string_of_list_ascii
    (rstrip_list (fun c => mem_char c chars) (list_ascii_of_string s)).

Definition map_string (f : ascii -> ascii) (s : string) : string :=
  string_of_list_ascii (map f (list_ascii_of_string s)).

Definition in_range (lo hi n : N) : bool := ((lo <=? n) && (n <=? hi))%N.

(** [str.lower] on Latin-1: the letters A-Z and the accented capitals
    U+00C0-U+00DE (the sign U+00D7 apart) move up by 32. *)
Definition lower_char (c : ascii) : ascii :=
  let n := N_of_ascii c in
  if in_range 65 90 n || (in_range 192 222 n && negb (n =? 215)%N)
  then ascii_of_N (n + 32) else c.

(** [str.upper] on Latin-1: the letters a-z and the accented small letters
    U+00E0-U+00FE (the sign U+00F7 apart) move down by 32.  The three
    characters whose capital lies outside Latin-1 (U+00B5, U+00DF, U+00FF)
    are left as they are. *)
Definition upper_char (c : ascii) : ascii :=
  let n := N_of_ascii c in
  if in_range 97 122 n || (in_range 224 254 n && negb (n =? 247)%N)
  then ascii_of_N (n - 32) else c.

Definition lower : string -> string := map_string lower_char.
Definition upper : string -> string := map_string upper_char.

(** *** The offline salt *)

Definition get_salt_from_heuristic (sam_account_name domain : string) : string :=
  let sAMAccountName := rstrip "$" sam_account_name in
  (upper domain ++ "host" ++ sAMAccountName ++ "." ++ lower domain)%string.

(** *** Sockets *)

Inductive sock_type : Type :=
| SOCK_STREAM
| SOCK_DGRAM.

(** A connected socket: what it sent, call by call, and what is waiting to
    be received.  On a stream the waiting bytes come as the segments in which
    they reach the receiver: a [recv] sees the bytes that have arrived when it
    is called, which is the first segment still queued, and a later segment
    only at a later [recv].  On a datagram socket they are the datagrams.
    [s_peer] is the other end: what it sends back on receiving a message. *)
Record socket : Type := mkSocket {
  s_type : sock_type;
  s_peer : bytes -> list bytes;
  s_sent : list bytes;
  s_inbox : list bytes
}.

Definition sendall (data : bytes) (s : socket) : socket :=
  mkSocket (s_type s) (s_peer s) (s_sent s ++ [data]) (s_inbox s ++ s_peer s data).

(** [s.recv(bufsize)].  On a stream: at most [bufsize] bytes of what has
    arrived, the rest staying queued, and the empty byte string once the peer
    has closed with nothing left (a peer that stays silent without closing
    would block the call; the model has the stream end instead).  On a
    datagram socket: the next datagram cut to [bufsize] bytes, or the timeout
    error when there is none. *)
Definition recv (bufsize : Z) (s : socket) : result (bytes * socket) :=
  if bufsize <? 0 then Raise (ValueError NegativeBufsize)
  else
    match s_type s, s_inbox s with
    | SOCK_STREAM, [] => Ok ([], s)
    | SOCK_STREAM, seg :: rest =>
        let inbox :=
          match drop bufsize seg with
          | [] => rest
          | later => later :: rest
          end in
        Ok (take bufsize seg, mkSocket (s_type s) (s_peer s) (s_sent s) inbox)
    | SOCK_DGRAM, [] => Raise OSError
    | SOCK_DGRAM, d :: rest =>
        Ok (take bufsize d, mkSocket (s_type s) (s_peer s) (s_sent s) rest)
    end.

(** [struct.pack('!i', v)] and [struct.unpack('!i', b)[0]]. *)
Definition struct_pack_i (v : Z) : result bytes :=
  if (- 2 ^ 31 <=? v) && (v <? 2 ^ 31) then Ok (to_bytes_be 4 (v mod 2 ^ 32))
  else Raise StructError.

Definition struct_unpack_i (b : bytes) : result Z :=
  if len b =? 4 then Ok (int_from_bytes_signed b) else Raise StructError.

(** [str(o)] for [o] a value of a string class or [VOID].  A string prints
    as its text.  [VOID] has no text of its own and prints as
    [Asn1Value.__repr__] does: class name, [id] of the object and the repr of
    its (empty) encoding. *)
Definition obj_str (void_id : Z) (o : obj) : string :=
  match o with
  | VOID => ("<asn1crypto.core.Void " ++ decimal void_id ++ " b''>")%string
  | Value _ contents => string_of_list_byte contents
  end.

Section Salt.

(** The random source: [randint a b] draws from a generator state. *)
Variable G : Type.
Variable randint : Z -> Z -> G -> Z * G.

(** The network: the peer a socket of a given type reaches at a host and
    port, if the connection succeeds. *)
Variable network : sock_type -> string -> Z -> option (bytes -> list bytes).

(** [id(asn1crypto.core.VOID)] in the running interpreter. *)
Variable void_id : Z.

Definition connect (ty : sock_type) (host : string) (port : Z) : result socket :=
  match network ty host port with
  | Some peer => Ok (mkSocket ty peer [] [])
  | None => Raise OSError
  end.

Definition build_as_req (username domain : string) (g : G) : result bytes * G :=
  let as_req := NDict [] in
  let as_req := setitem as_req "pvno" (NInt 5) in
  let as_req := setitem as_req "msg-type" (NInt AS_MSG_TYPE) in

  let req_body := NDict [] in
  let req_body := setitem req_body "kdc-options" (NSet []) in

  let cname := NDict [] in
  let cname := setitem cname "name-type" (NInt NT_PRINCIPAL) in
  let cname := setitem cname "name-string" (NList [NStr username]) in
  let req_body := setitem req_body "cname" cname in

  let req_body := setitem req_body "realm" (NStr domain) in

  let sname := NDict [] in
  let sname := setitem sname "name-type" (NInt NT_SRV_INST) in
  let sname := setitem sname "name-string" (NList [NStr "krbtgt"; NStr domain]) in
  let req_body := setitem req_body "sname" sname in

  let req_body := setitem req_body "till" (NStr TIME_T_ZERO) in

  let '(nonce, g) := randint 0 INT32_MAX_VAL g in
  let req_body := setitem req_body "nonce" (NInt nonce) in

  let etype := NList [NInt AES128_CTS_HMAC_SHA1_96_ENC_TYPE;
                      NInt AES256_CTS_HMAC_SHA1h96_ENC_TYPE] in
  let req_body := setitem req_body "etype" etype in

  let as_req := setitem as_req "req-body" req_body in

  (dump KRB_AS_REQ as_req, g).

(** The result comes with the socket as the call leaves it, which records
    what was sent. *)
Definition send_as_req (dc username domain : string) (udp : bool) (g : G)
  : result (bytes * socket) * G :=
  if udp then
    match connect SOCK_DGRAM dc KERBEROS_PORT with
    | Raise e => (Raise e, g)
    | Ok s =>
        let '(data, g) := build_as_req username domain g in
        (data <- data ;;
         let s := sendall data s in
         recv 1024 s, g)
    end
  else
    match connect SOCK_STREAM dc KERBEROS_PORT with
    | Raise e => (Raise e, g)
    | Ok s =>
        let '(data, g) := build_as_req username domain g in
        (data <- data ;;
         request_length <- struct_pack_i (len data) ;;
         let s := sendall (request_length ++ data) s in
         '(prefix, s) <- recv 4 s ;;
         response_length <- struct_unpack_i prefix ;;
         recv response_length s, g)
    end.

Definition get_salt_from_rep (kdc_rep : bytes) : result string :=
  any <- Any_load kdc_rep ;;
  let tag := tag (t_ident any) in
  returned <-
    (if tag =? KRB_ERROR_TAG_NUMBER then
       err <- load KRB_ERROR kdc_rep ;;
       error_code <- (o <- getitem err "error-code" ;; obj_native o) ;;
       if eq_int error_code KDC_ERR_PREAUTH_REQUIRED then
         e_data <- (o <- getitem err "e-data" ;; obj_native o) ;;
         padatas <- (o <- load_native (plain PA_DATA_SEQUENCE_OF) e_data ;; iter o) ;;
         for_each padatas (fun padata =>
           padata <- padata ;;
           padata_type <- (o <- getitem padata "padata-type" ;; obj_native o) ;;
           if eq_int padata_type PA_ETYPE_INFO2 then
             padata_value <- (o <- getitem padata "padata-value" ;; obj_native o) ;;
             entries <- (o <- load_native (plain ETYPE_INFO2) padata_value ;; iter o) ;;
             for_each entries (fun pa_etype_info2_value =>
               pa_etype_info2_value <- pa_etype_info2_value ;;
               etype <- (o <- getitem pa_etype_info2_value "etype" ;; obj_native o) ;;
               if eq_int etype AES256_CTS_HMAC_SHA1h96_ENC_TYPE then
                 salt <- (o <- getitem pa_etype_info2_value "salt" ;; obj_native o) ;;
                 Ok (Some (py_str salt))
               else Ok None)
           else Ok None)
       else Ok None
     else if tag =? AS_REP_TAG_NUMBER then
       as_rep <- load KRB_AS_REP kdc_rep ;;
       padatas <- (o <- getitem as_rep "padata" ;; v <- obj_native o ;; native_iter v) ;;
       for_each padatas (fun padata =>
         padata_type <- native_getitem padata "padata-type" ;;
         if eq_int padata_type PA_ETYPE_INFO2 then
           padata_value <- native_getitem padata "padata-value" ;;
           entries <- (o <- load_native (plain ETYPE_INFO2) padata_value ;; iter o) ;;
           for_each entries (fun pa_etype_info2_value =>
             pa_etype_info2_value <- pa_etype_info2_value ;;
             etype <- (o <- getitem pa_etype_info2_value "etype" ;; obj_native o) ;;
             if eq_int etype AES256_CTS_HMAC_SHA1h96_ENC_TYPE
                || eq_int etype AES128_CTS_HMAC_SHA1_96_ENC_TYPE then
               salt <- getitem pa_etype_info2_value "salt" ;;
               Ok (Some (obj_str void_id salt))
             else Ok None)
         else Ok None)
     else Ok None) ;;
  match returned with
  | Some salt => Ok salt
  | None =>
      Raise (Exception ("Could not retrieve salt from AS_REP (tag number "
                        ++ decimal tag ++ ")")%string)
  end.

Definition get_salt_from_preauth (dc username domain : string) (g : G)
  : result string * G :=
  let '(rep, g) := send_as_req dc username domain false g in
  ('(kdc_rep, _) <- rep ;; get_salt_from_rep kdc_rep, g).

End Salt.

(** ** Decoded views and sample messages *)

(** A PA-DATA and an ETYPE-INFO2-ENTRY as their fields, and the native
    value asn1crypto gives for each. *)
Record PaData : Type := mkPaData {
  padata_type : Z;
  padata_value : bytes
}.

Record EtypeInfo2Entry : Type := mkEntry {
  etype : Z;
  salt : option string;
  s2kparams : option bytes
}.

Definition padata_native (p : PaData) : native :=
  NDict [("padata-type", NInt (padata_type p));
         ("padata-value", NBytes (padata_value p))].

Definition entry_native (e : EtypeInfo2Entry) : native :=
  NDict [("etype", NInt (etype e));
         ("salt", match salt e with Some s => NStr s | None => NNone end);
         ("s2kparams", match s2kparams e with Some b => NBytes b | None => NNone end)].

(** The native value of the [salt] field of an element, and what the
    success path prints for it: the text of a salt that is present, and
    [str(VOID)] for one that is absent. *)
Definition salt_native (e : EtypeInfo2Entry) : native :=
  match salt e with Some s => NStr s | None => NNone end.

Definition salt_str (void_id : Z) (e : EtypeInfo2Entry) : string :=
  match salt e with Some s => s | None => obj_str void_id VOID end.

(** [cls.load(data).native == v]. *)
Definition decodes (s : spec) (data : bytes) (v : native) : Prop :=
  (o <- load (plain s) data ;; obj_native o) = Ok v.

(** A PA-DATA list with, for each entry, the elements its value holds when
    it is an ETYPE-INFO2: every ETYPE-INFO2 value decodes to its elements. *)
Definition etype_info2_decoded (pes : list (PaData * list EtypeInfo2Entry)) : Prop :=
  Forall (fun pe =>
            padata_type (fst pe) = PA_ETYPE_INFO2 ->
            decodes ETYPE_INFO2 (padata_value (fst pe)) (NList (map entry_native (snd pe))))
         pes.

(** The first element with an accepted etype among the elements of all the
    ETYPE-INFO2 entries, taken in order. *)
Definition first_match (accept : Z -> bool) (pes : list (PaData * list EtypeInfo2Entry))
  : option EtypeInfo2Entry :=
  find (fun e => accept (etype e))
       (flat_map (fun pe => if padata_type (fst pe) =? PA_ETYPE_INFO2 then snd pe else [])
                 pes).

Definition is_aes256 (e : Z) : bool := e =? AES256_CTS_HMAC_SHA1h96_ENC_TYPE.


(** The first [Some] of a list of loop-body outcomes. *)
Fixpoint first_some {A : Type} (l : list (option A)) : option A :=
  match l with
  | [] => None
  | Some a :: _ => Some a
  | None :: l' => first_some l'
  end.

(** The message raised on line 297. *)
Definition could_not_retrieve (tag : Z) : exn :=
  Exception ("Could not retrieve salt from AS_REP (tag number " ++ decimal tag ++ ")")%string.

(** The error path as the specification words it: only the first PA-DATA
    of type ETYPE-INFO2 is looked at, and the lookup fails when that entry
    holds no AES256 element. *)
Definition first_etype_info2_only (pes : list (PaData * list EtypeInfo2Entry))
  : option EtypeInfo2Entry :=
  match find (fun pe => padata_type (fst pe) =? PA_ETYPE_INFO2) pes with
  | Some pe => find (fun e => is_aes256 (etype e)) (snd pe)
  | None => None
  end.

(** The account name as the specification words it: one trailing [$]
    removed when there is one. *)
Definition strip_one_dollar (s : string) : string :=
  match rev (list_ascii_of_string s) with
  | c :: r => if Ascii.eqb c "$" then string_of_list_ascii (rev r) else s
  | [] => s
  end.

Definition heuristic_with_one_dollar_stripped (account_name realm : string) : string :=
  (upper realm ++ "host" ++ strip_one_dollar account_name ++ "." ++ lower realm)%string.

(** [AS-REQ] as [build_as_req] fills it, and the native value its encoding
    decodes to. *)
Definition as_req_value (username domain : string) (nonce : Z) : native :=
  NDict [("pvno", NInt 5); ("msg-type", NInt AS_MSG_TYPE);
         ("req-body",
          NDict [("kdc-options", NSet []);
                 ("cname", NDict [("name-type", NInt NT_PRINCIPAL);
                                  ("name-string", NList [NStr username])]);
                 ("realm", NStr domain);
                 ("sname", NDict [("name-type", NInt NT_SRV_INST);
                                  ("name-string", NList [NStr "krbtgt"; NStr domain])]);
                 ("till", NStr TIME_T_ZERO);
                 ("nonce", NInt nonce);
                 ("etype", NList [NInt AES128_CTS_HMAC_SHA1_96_ENC_TYPE;
                                  NInt AES256_CTS_HMAC_SHA1h96_ENC_TYPE])])].

Definition as_req_native (username domain : string) (nonce : Z) : native :=
  NDict [("pvno", NInt 5); ("msg-type", NInt 10); ("padata", NNone);
         ("req-body",
          NDict [("kdc-options", NSet []);
                 ("cname", NDict [("name-type", NInt 1);
                                  ("name-string", NList [NStr username])]);
                 ("realm", NStr domain);
                 ("sname", NDict [("name-type", NInt 2);
                                  ("name-string", NList [NStr "krbtgt"; NStr domain])]);
                 ("from", NNone);
                 ("till", NDatetime 1970 1 1 0 0 0);
                 ("rtime", NNone);
                 ("nonce", NInt nonce);
                 ("etype", NList [NInt 17; NInt 18]);
                 ("addresses", NNone);
                 ("enc-authorization-data", NNone);
                 ("additional-tickets", NNone)])].

(** A decoded AS-REQ with its nonce blanked. *)
Definition without_nonce (v : native) : native :=
  match native_getitem v "req-body" with
  | Ok body => setitem v "req-body" (setitem body "nonce" NNone)
  | Raise _ => v
  end.

(** The encoding of an element as a total function: what [dump_tlv]
    returns when it succeeds. *)
Definition tlv_bytes (i : ident) (contents : bytes) : bytes :=
  match dump_tlv i contents with
  | Ok enc => enc
  | Raise _ => []
  end.

(** The identifiers that fit one octet. *)
Definition small_ident (i : ident) : Prop :=
  0 <= class_ i <= 3 /\ 0 <= method i <= 1 /\ 0 <= tag i < 31.

Definition range (n : nat) : list Z := map Z.of_nat (seq 0 n).

Definition ident_octet_ok (c m t : Z) : bool :=
  let f := Z.lor (Z.lor (Z.shiftl c 6) (Z.shiftl m 5)) t in
  (0 <=? f) && (f <=? 255) && negb (Z.land f 31 =? 31) && (Z.land f 31 =? t)
  && (Z.land (Z.shiftr f 5) 1 =? m) && (Z.shiftr f 6 =? c).

Definition long_length_octet_ok (n : Z) : bool :=
  let f := Z.lor 128 n in
  (f <=? 255) && negb (Z.shiftr f 7 =? 0) && (Z.land f 127 =? n).

(** An exception that asn1crypto or the interpreter raised, as opposed to
    the module's own [Exception]. *)
Definition raised_below (e : exn) : Prop :=
  match e with
  | Exception _ => False
  | _ => True
  end.

(** *** Sample replies *)

Definition encoded (r : result bytes) : bytes :=
  match r with
  | Ok b => b
  | Raise _ => []
  end.

Definition sample_entry (e : Z) (s : option string) : native :=
  NDict (("etype", NInt e)
         :: match s with Some s => [("salt", NStr s)] | None => [] end).

Definition sample_etype_info2 (entries : list native) : bytes :=
  encoded (dump (plain ETYPE_INFO2) (NList entries)).

Definition sample_padata (ty : Z) (value : bytes) : native :=
  NDict [("padata-type", NInt ty); ("padata-value", NBytes value)].

Definition sample_name : native :=
  NDict [("name-type", NInt NT_SRV_INST);
         ("name-string", NList [NStr "krbtgt"; NStr "EXAMPLE.COM"])].

(** A KRB-ERROR with the given error code and, in [e-data], the given
    PA-DATA list. *)
Definition sample_krb_error (code : Z) (padatas : list native) : bytes :=
  encoded (dump KRB_ERROR
    (NDict [("pvno", NInt 5); ("msg-type", NInt 30);
            ("stime", NStr "20240101000000Z"); ("susec", NInt 0);
            ("error-code", NInt code);
            ("realm", NStr "EXAMPLE.COM"); ("sname", sample_name);
            ("e-data", NBytes (encoded (dump (plain PA_DATA_SEQUENCE_OF) (NList padatas))))])).

Definition sample_enc_part : native :=
  NDict [("etype", NInt 18); ("cipher", NBytes [x00])].

(** An AS-REP with the given PA-DATA list. *)
Definition sample_as_rep (padatas : list native) : bytes :=
  encoded (dump KRB_AS_REP
    (NDict [("pvno", NInt 5); ("msg-type", NInt 11);
            ("padata", NList padatas);
            ("crealm", NStr "EXAMPLE.COM"); ("cname", sample_name);
            ("ticket", NDict [("tkt-vno", NInt 5); ("realm", NStr "EXAMPLE.COM");
                              ("sname", sample_name); ("enc-part", sample_enc_part)]);
            ("enc-part", sample_enc_part)])).

(** A KRB-ERROR asking for pre-authentication whose first ETYPE-INFO2 holds
    only an AES128 element and whose second holds an AES256 one. *)
Definition reply_two_etype_info2 : bytes :=
  sample_krb_error 25
    [sample_padata 19 (sample_etype_info2 [sample_entry 17 (Some "A")]);
     sample_padata 19 (sample_etype_info2 [sample_entry 18 (Some "B")])].

Definition two_etype_info2 : list (PaData * list EtypeInfo2Entry) :=
  [(mkPaData 19 (sample_etype_info2 [sample_entry 17 (Some "A")]),
    [mkEntry 17 (Some "A") None]);
   (mkPaData 19 (sample_etype_info2 [sample_entry 18 (Some "B")]),
    [mkEntry 18 (Some "B") None])].

(** A KRB-ERROR asking for pre-authentication whose AES256 element has no
    salt. *)
Definition reply_error_no_salt : bytes :=
  sample_krb_error 25 [sample_padata 19 (sample_etype_info2 [sample_entry 18 None])].

(** A KRB-ERROR with another error code (KDC_ERR_C_PRINCIPAL_UNKNOWN). *)
Definition reply_other_error : bytes :=
  sample_krb_error 6 [].




(** An AS-REP whose AES256 element has no salt. *)
Definition reply_as_rep_no_salt : bytes :=
  sample_as_rep [sample_padata 19 (sample_etype_info2 [sample_entry 18 None])].

(** The KRB-ERROR of the specification's example: pre-authentication
    required, one ETYPE-INFO2 with an AES256 element and its salt. *)
Definition reply_error_with_salt : bytes :=
  sample_krb_error 25
    [sample_padata 19 (sample_etype_info2 [sample_entry 18 (Some "REALM.COMhostSVC$")])].


(** *** A sample random source and network *)

(** A generator whose state is a counter. *)
Definition counter_randint (a b : Z) (g : Z) : Z * Z := (a + g mod (b - a + 1), g + 1).

(** A peer that answers any request with a three-byte body behind its
    length prefix, delivered in two segments: the prefix with the first two
    bytes of the body, then the last byte. *)
Definition split_reply_peer (request : bytes) : list bytes :=
  [[x00; x00; x00; x03; x01; x02]; [x03]].

(** A peer that answers any request with the same three-byte body behind
    its length prefix, delivered whole. *)
Definition whole_reply_peer (request : bytes) : list bytes :=
  [to_bytes_be 4 3 ++ [x01; x02; x03]].

Definition whole_reply_network (ty : sock_type) (host : string) (port : Z)
  : option (bytes -> list bytes) :=
  Some whole_reply_peer.

Definition split_reply_network (ty : sock_type) (host : string) (port : Z)
  : option (bytes -> list bytes) :=
  Some split_reply_peer.

(** *** More sample replies and peers *)

(** A KRB-ERROR asking for pre-authentication that carries no e-data. *)
Definition reply_error_no_e_data : bytes :=
  encoded (dump KRB_ERROR
    (NDict [("pvno", NInt 5); ("msg-type", NInt 30);
            ("stime", NStr "20240101000000Z"); ("susec", NInt 0);
            ("error-code", NInt 25);
            ("realm", NStr "EXAMPLE.COM"); ("sname", sample_name)])).

(** An AS-REP that carries no padata. *)
Definition reply_as_rep_no_padata : bytes :=
  encoded (dump KRB_AS_REP
    (NDict [("pvno", NInt 5); ("msg-type", NInt 11);
            ("crealm", NStr "EXAMPLE.COM"); ("cname", sample_name);
            ("ticket", NDict [("tkt-vno", NInt 5); ("realm", NStr "EXAMPLE.COM");
                              ("sname", sample_name); ("enc-part", sample_enc_part)]);
            ("enc-part", sample_enc_part)])).

(** The network on which every host answers as [peer], and the one on which
    no host is reached. *)
Definition network_of (peer : bytes -> list bytes) (ty : sock_type) (host : string) (port : Z)
  : option (bytes -> list bytes) :=
  Some peer.

Definition no_network (ty : sock_type) (host : string) (port : Z)
  : option (bytes -> list bytes) :=
  None.

(** A KDC that answers any request with [kdc_rep], whole, behind its length
    prefix. *)
Definition kdc_peer (kdc_rep : bytes) (request : bytes) : list bytes :=
  [to_bytes_be 4 (len kdc_rep) ++ kdc_rep].

(** A peer whose length prefix has its first bit set. *)
Definition negative_prefix_peer (request : bytes) : list bytes :=
  [[xff; xff; xff; xfd; x01; x02; x03]].

(** A peer whose length prefix arrives in two segments. *)
Definition short_prefix_peer (request : bytes) : list bytes :=
  [[x00; x00]; [x00; x03; x01; x02; x03]].

(** A peer that answers with one datagram of 1030 bytes. *)
Definition long_datagram_peer (request : bytes) : list bytes :=
  [repeat x30 1030].

(** *** Two interpreters *)

(** Two outcomes, one per interpreter, that are equal or else are both the
    printed form of [VOID], each with the [id] of its interpreter. *)
Definition same_or_void {A : Type} (wrap : string -> A) (v1 v2 : Z) (r1 r2 : result A) : Prop :=
  r1 = r2
  \/ (r1 = Ok (wrap (obj_str v1 VOID)) /\ r2 = Ok (wrap (obj_str v2 VOID))).

(** *** ASCII text *)

Definition is_ascii (s : string) : Prop :=
  Forall (fun c => (N_of_ascii c < 128)%N) (list_ascii_of_string s).

Definition all_ascii : list ascii := map ascii_of_nat (seq 0 256).

(** *** Replies built by the encoder *)






(** A KDC whose reply [first ++ later] arrives in two segments, the first
    with the length prefix. *)
Definition cut_kdc_peer (first later : bytes) (request : bytes) : list bytes :=
  [to_bytes_be 4 (len (first ++ later)) ++ first; later].

(** * Properties *)

(** ** The encoding layer *)

(** *** Bytes and integers *)

Lemma Z_of_byte_range (b : byte) : 0 <= Z_of_byte b <= 255.
Proof.
  unfold Z_of_byte. pose proof (Byte.to_N_bounded b). lia.
Qed.

Lemma chr_cls_ok (z : Z) : 0 <= z <= 255 -> exists b, chr_cls z = Ok b /\ Z_of_byte b = z.
Proof.
  intros Hz. unfold chr_cls.
  destruct (z <? 0) eqn:E; [apply Z.ltb_lt in E; lia|].
  destruct (Byte.of_N (Z.to_N z)) as [b|] eqn:Hb.
  - exists b. split; [reflexivity|]. unfold Z_of_byte.
    rewrite (Byte.to_of_N _ Hb). lia.
  - apply Byte.of_N_None_iff in Hb. lia.
Qed.

Lemma chr_cls_inv (z : Z) (b : byte) : chr_cls z = Ok b -> Z_of_byte b = z /\ 0 <= z <= 255.
Proof.
  unfold chr_cls. destruct (z <? 0) eqn:E; [discriminate|].
  apply Z.ltb_ge in E.
  destruct (Byte.of_N (Z.to_N z)) as [b'|] eqn:Hb; [|discriminate].
  intros H; inversion H; subst b'. unfold Z_of_byte.
  pose proof (Byte.to_of_N _ Hb) as Hn. pose proof (Byte.to_N_bounded b). lia.
Qed.

Lemma Z_of_low_byte (z : Z) : Z_of_byte (low_byte z) = z mod 256.
Proof.
  unfold low_byte. pose proof (Z.mod_pos_bound z 256 ltac:(lia)) as Hm.
  destruct (Byte.of_N (Z.to_N (z mod 256))) as [b|] eqn:Hb.
  - unfold Z_of_byte. rewrite (Byte.to_of_N _ Hb). lia.
  - apply Byte.of_N_None_iff in Hb. lia.
Qed.

Lemma int_from_bytes_snoc (l : bytes) (b : byte) :
  int_from_bytes (l ++ [b]) = int_from_bytes l * 256 + Z_of_byte b.
Proof. unfold int_from_bytes. rewrite fold_left_app. reflexivity. Qed.

Lemma length_to_bytes_be (w : nat) (v : Z) : List.length (to_bytes_be w v) = w.
Proof.
  revert v. induction w as [|w IH]; intros v; simpl; [reflexivity|].
  rewrite length_app, IH. simpl. lia.
Qed.

Lemma int_from_to_bytes_be (w : nat) (v : Z) :
  int_from_bytes (to_bytes_be w v) = v mod 256 ^ Z.of_nat w.
Proof.
  revert v. induction w as [|w IH]; intros v.
  - simpl. rewrite Z.mod_1_r. reflexivity.
  - cbn [to_bytes_be]. rewrite int_from_bytes_snoc, IH, Z_of_low_byte.
    rewrite Nat2Z.inj_succ, Z.pow_succ_r by lia.
    rewrite (Z.rem_mul_r v 256 (256 ^ Z.of_nat w)) by lia. lia.
Qed.

Lemma bit_length_bound (v : Z) : 0 <= v -> v < 2 ^ bit_length v.
Proof.
  intros Hv. unfold bit_length. rewrite Z.abs_eq by lia.
  destruct (v =? 0) eqn:E.
  - apply Z.eqb_eq in E. subst. reflexivity.
  - apply Z.eqb_neq in E. apply Z.log2_spec. lia.
Qed.

Lemma bit_length_nonneg (v : Z) : 0 <= bit_length v.
Proof.
  unfold bit_length. destruct (Z.abs v =? 0); [lia|].
  pose proof (Z.log2_nonneg (Z.abs v)). lia.
Qed.

Lemma pow256 (w : Z) : 0 <= w -> 256 ^ w = 2 ^ (8 * w).
Proof. intros. rewrite Z.pow_mul_r by lia. reflexivity. Qed.

Lemma width_of_bits_spec (bits : Z) :
  0 <= bits -> bits <= 8 * Z.of_nat (width_of_bits bits) /\ 1 <= Z.of_nat (width_of_bits bits).
Proof.
  intros Hb. unfold width_of_bits. rewrite Z2Nat.id by lia.
  pose proof (Z.div_mod (bits + 7) 8 ltac:(lia)).
  pose proof (Z.mod_pos_bound (bits + 7) 8 ltac:(lia)). lia.
Qed.

Lemma int_to_bytes_unsigned (v : Z) :
  0 <= v -> int_from_bytes (int_to_bytes false v) = v.
Proof.
  intros Hv. unfold int_to_bytes. rewrite int_from_to_bytes_be.
  apply Z.mod_small. split; [lia|].
  pose proof (bit_length_bound v Hv). pose proof (bit_length_nonneg v).
  destruct (width_of_bits_spec (bit_length v) ltac:(lia)) as [Hw _].
  rewrite pow256 by lia.
  eapply Z.lt_le_trans; [eassumption|]. apply Z.pow_le_mono_r; lia.
Qed.

Lemma int_to_bytes_signed_nonneg (v : Z) :
  0 <= v -> int_from_bytes_signed (int_to_bytes true v) = v.
Proof.
  intros Hv. unfold int_to_bytes, int_from_bytes_signed.
  destruct (v <? 0) eqn:E; [apply Z.ltb_lt in E; lia|].
  set (bits := if bit_length v mod 8 =? 0 then bit_length v + 1 else bit_length v).
  pose proof (bit_length_bound v Hv) as Hb. pose proof (bit_length_nonneg v) as Hn.
  assert (Hbits : bit_length v <= bits /\ bits mod 8 <> 0 \/ bit_length v + 1 = bits) .
  { subst bits. destruct (bit_length v mod 8 =? 0) eqn:E8; [right; lia|left].
    apply Z.eqb_neq in E8. lia. }
  assert (H0 : 0 <= bits) by (subst bits; destruct (_ =? _); lia).
  destruct (width_of_bits_spec bits H0) as [Hw Hw1].
  unfold len. rewrite length_to_bytes_be, int_from_to_bytes_be.
  set (w := Z.of_nat (width_of_bits bits)) in *.
  assert (Hlt : v < 2 ^ (8 * w - 1)).
  { eapply Z.lt_le_trans; [exact Hb|]. apply Z.pow_le_mono_r; [lia|].
    destruct Hbits as [[H1 H2]|H1]; [|lia].
    assert (bits <> 8 * w).
    { intro Heq. apply H2. rewrite Heq, Z.mul_comm. apply Z.mod_mul; lia. }
    lia. }
  assert (Hlt2 : 2 ^ (8 * w - 1) < 2 ^ (8 * w)) by (apply Z.pow_lt_mono_r; lia).
  rewrite pow256 by lia.
  rewrite Z.mod_small by lia.
  destruct (2 ^ (8 * w - 1) <=? v) eqn:E2; [apply Z.leb_le in E2; lia|].
  rewrite andb_false_r. reflexivity.
Qed.

(** *** Identifier and length octets *)

Lemma in_range_iff (n : nat) (z : Z) : 0 <= z < Z.of_nat n -> In z (range n).
Proof.
  intros H. unfold range. apply in_map_iff. exists (Z.to_nat z). split; [lia|].
  apply in_seq. lia.
Qed.

Lemma ident_octet_table :
  forallb (fun c => forallb (fun m => forallb (ident_octet_ok c m) (range 31)) (range 2))
          (range 4) = true.
Proof. vm_compute. reflexivity. Qed.

Lemma ident_octet_spec (c m t : Z) :
  0 <= c <= 3 -> 0 <= m <= 1 -> 0 <= t < 31 ->
  let f := Z.lor (Z.lor (Z.shiftl c 6) (Z.shiftl m 5)) t in
  0 <= f <= 255 /\ Z.land f 31 <> 31 /\ Z.land f 31 = t
  /\ Z.land (Z.shiftr f 5) 1 = m /\ Z.shiftr f 6 = c.
Proof.
  intros Hc Hm Ht f.
  pose proof ident_octet_table as T.
  rewrite forallb_forall in T. specialize (T c (in_range_iff 4 c ltac:(lia))).
  rewrite forallb_forall in T. specialize (T m (in_range_iff 2 m ltac:(lia))).
  rewrite forallb_forall in T. specialize (T t (in_range_iff 31 t ltac:(lia))).
  unfold ident_octet_ok in T. fold f in T.
  repeat (apply andb_prop in T; destruct T as [T ?]).
  repeat match goal with
         | H : (_ =? _) = true |- _ => apply Z.eqb_eq in H
         | H : (_ <=? _) = true |- _ => apply Z.leb_le in H
         | H : negb (_ =? _) = true |- _ => apply negb_true_iff, Z.eqb_neq in H
         end.
  repeat split; assumption.
Qed.

Lemma long_length_octet_table : forallb long_length_octet_ok (range 128) = true.
Proof. vm_compute. reflexivity. Qed.

Lemma long_length_octet_spec (n : Z) :
  0 <= n <= 127 ->
  let f := Z.lor 128 n in
  0 <= f <= 255 /\ Z.shiftr f 7 <> 0 /\ Z.land f 127 = n.
Proof.
  intros Hn f. pose proof long_length_octet_table as T.
  rewrite forallb_forall in T. specialize (T n (in_range_iff 128 n ltac:(lia))).
  unfold long_length_octet_ok in T. fold f in T.
  repeat (apply andb_prop in T; destruct T as [T ?]).
  apply Z.leb_le in T. apply negb_true_iff, Z.eqb_neq in H0. apply Z.eqb_eq in H.
  assert (0 <= f) by (subst f; apply Z.lor_nonneg; lia).
  repeat split; assumption || lia.
Qed.

Lemma short_length_octet_spec (n : Z) :
  0 <= n <= 127 -> Z.shiftr n 7 = 0 /\ Z.land n 127 = n.
Proof.
  intros Hn. split.
  - rewrite Z.shiftr_div_pow2 by lia. apply Z.div_small. simpl. lia.
  - change 127 with (Z.ones 7). rewrite Z.land_ones by lia. apply Z.mod_small. simpl. lia.
Qed.

Lemma len_nonneg {A} (l : list A) : 0 <= len l.
Proof. unfold len. lia. Qed.

Lemma len_app {A} (l1 l2 : list A) : len (l1 ++ l2) = len l1 + len l2.
Proof. unfold len. rewrite length_app. lia. Qed.

Lemma take_app_len {A} (l1 l2 : list A) : take (len l1) (l1 ++ l2) = l1.
Proof.
  unfold take, len. rewrite Nat2Z.id. rewrite firstn_app, Nat.sub_diag, firstn_all.
  simpl. apply app_nil_r.
Qed.

Lemma drop_app_len {A} (l1 l2 : list A) : drop (len l1) (l1 ++ l2) = l2.
Proof.
  unfold drop, len. rewrite Nat2Z.id. rewrite skipn_app, Nat.sub_diag, skipn_all.
  reflexivity.
Qed.

Lemma length_bytes_bound (n : Z) :
  0 <= n < 2 ^ 1000 -> 1 <= len (int_to_bytes false n) <= 127.
Proof.
  intros Hn. unfold int_to_bytes, len. rewrite length_to_bytes_be.
  pose proof (bit_length_nonneg n).
  destruct (width_of_bits_spec (bit_length n) ltac:(lia)) as [_ H1].
  split; [lia|]. unfold width_of_bits. rewrite Z2Nat.id by lia.
  assert (bit_length n <= 1000).
  { unfold bit_length. rewrite Z.abs_eq by lia.
    destruct (n =? 0) eqn:E0; [lia|]. apply Z.eqb_neq in E0.
    assert (Z.log2 n < 1000) by (apply Z.log2_lt_pow2; lia). lia. }
  assert ((bit_length n + 7) / 8 <= 126) by (apply Z.div_le_upper_bound; lia).
  lia.
Qed.

Lemma _dump_length_ok (n : Z) :
  0 <= n < 2 ^ 1000 ->
  exists l, _dump_length n = Ok l /\ 1 <= len l <= 128.
Proof.
  intros Hn. unfold _dump_length.
  destruct (n <=? 127) eqn:E.
  - apply Z.leb_le in E. destruct (chr_cls_ok n ltac:(lia)) as (b & Hb & _).
    rewrite Hb. simpl. eexists. split; [reflexivity|]. unfold len. simpl. lia.
  - apply Z.leb_gt in E.
    pose proof (length_bytes_bound n Hn) as Hw.
    destruct (long_length_octet_spec (len (int_to_bytes false n)) ltac:(lia)) as (Hf & _).
    destruct (chr_cls_ok _ Hf) as (b & Hb & _). rewrite Hb. simpl.
    eexists. split; [reflexivity|]. unfold len in *. simpl. lia.
Qed.

Lemma dump_tlv_ok (i : ident) (contents : bytes) :
  small_ident i -> len contents < 2 ^ 1000 ->
  exists enc, dump_tlv i contents = Ok enc
              /\ len contents + 2 <= len enc <= len contents + 129.
Proof.
  intros (Hc & Hm & Ht) Hn. unfold dump_tlv, _dump_header, _dump_tag.
  destruct (31 <=? tag i) eqn:E; [apply Z.leb_le in E; lia|].
  destruct (ident_octet_spec _ _ _ Hc Hm Ht) as (Hf & _).
  destruct (chr_cls_ok _ Hf) as (b & Hb & _). rewrite Hb. simpl.
  destruct (_dump_length_ok (len contents)) as (l & Hl & Hll).
  { pose proof (len_nonneg contents). lia. }
  rewrite Hl. simpl. eexists. split; [reflexivity|].
  change (b :: l ++ contents) with ([b] ++ l ++ contents).
  rewrite !len_app. change (len [b]) with 1. lia.
Qed.

Lemma _parse_length_dump (n : Z) (l body rest : bytes) :
  _dump_length n = Ok l -> n = len body -> n < 2 ^ 1000 ->
  _parse_length (l ++ body ++ rest) = Ok (n, body ++ rest).
Proof.
  intros Hl Hn Hlt. unfold _dump_length in Hl.
  pose proof (len_nonneg body) as Hpos.
  destruct (n <=? 127) eqn:E.
  - apply Z.leb_le in E.
    destruct (chr_cls n) as [b|] eqn:Hb; [|discriminate]. simpl in Hl.
    inversion Hl; subst l. apply chr_cls_inv in Hb. destruct Hb as [Hb _].
    cbn [app _parse_length]. rewrite Hb.
    destruct (short_length_octet_spec n ltac:(lia)) as [-> ->]. reflexivity.
  - apply Z.leb_gt in E.
    destruct (chr_cls (Z.lor 128 (len (int_to_bytes false n)))) as [b|] eqn:Hb;
      [|discriminate].
    simpl in Hl. inversion Hl; subst l. apply chr_cls_inv in Hb. destruct Hb as [Hb Hr].
    pose proof (length_bytes_bound n ltac:(lia)) as Hw.
    set (lbs := int_to_bytes false n) in *.
    destruct (long_length_octet_spec (len lbs) ltac:(lia)) as (_ & Hs & Hland).
    cbn [app _parse_length]. rewrite Hb.
    apply Z.eqb_neq in Hs. rewrite Hs. cbv zeta. rewrite Hland.
    destruct (len lbs =? 0) eqn:E0; [apply Z.eqb_eq in E0; lia|].
    rewrite len_app.
    destruct (len lbs + len (body ++ rest) <? len lbs) eqn:E1.
    { apply Z.ltb_lt in E1. pose proof (len_nonneg (body ++ rest)). lia. }
    rewrite take_app_len, drop_app_len. subst lbs.
    rewrite int_to_bytes_unsigned by lia. reflexivity.
Qed.

Lemma _parse_dump_tlv (i : ident) (contents enc rest : bytes) :
  small_ident i -> len contents < 2 ^ 1000 ->
  dump_tlv i contents = Ok enc ->
  _parse (enc ++ rest) = Ok (mkTlv i contents, rest).
Proof.
  intros (Hc & Hm & Ht) Hn. unfold dump_tlv, _dump_header, _dump_tag.
  destruct (31 <=? tag i) eqn:E; [discriminate|].
  destruct (ident_octet_spec _ _ _ Hc Hm Ht) as (Hf & Hne & Htag & Hmeth & Hcls).
  set (f := Z.lor (Z.lor (Z.shiftl (class_ i) 6) (Z.shiftl (method i) 5)) (tag i)) in *.
  destruct (chr_cls f) as [b|] eqn:Hb; [|discriminate]. cbn [bind].
  destruct (_dump_length (len contents)) as [l|] eqn:Hl; [|discriminate]. cbn [bind].
  intros H; inversion H; subst enc; clear H.
  apply chr_cls_inv in Hb. destruct Hb as [Hb _].
  pose proof (_parse_length_dump _ l contents rest Hl eq_refl Hn) as Hlen.
  change ((b :: l ++ contents) ++ rest) with (b :: (l ++ contents) ++ rest).
  rewrite <- app_assoc. cbn [_parse]. rewrite Hb. unfold _parse_tag.
  apply Z.eqb_neq in Hne. rewrite Hne. cbn [bind]. rewrite Hlen. cbn [bind].
  destruct (len (contents ++ rest) <? len contents) eqn:E1.
  { apply Z.ltb_lt in E1. rewrite len_app in E1. pose proof (len_nonneg rest). lia. }
  rewrite take_app_len, drop_app_len, Htag, Hmeth, Hcls.
  destruct i; reflexivity.
Qed.

(** *** Splitting contents into elements *)

Lemma _parse_long_tag_shrinks (acc : Z) (data : bytes) (t : Z) (d : bytes) :
  _parse_long_tag acc data = Ok (t, d) -> (List.length d < List.length data)%nat.
Proof.
  revert acc. induction data as [|b data IH]; intros acc; simpl; [discriminate|].
  destruct ((Z_of_byte b =? 128) && (acc =? 0)); [discriminate|].
  destruct (Z.shiftr (Z_of_byte b) 7 =? 0).
  - intros H; inversion H; subst. lia.
  - intros H. apply IH in H. lia.
Qed.

Lemma _parse_tag_shrinks (first_octet : Z) (data : bytes) (t : Z) (d : bytes) :
  _parse_tag first_octet data = Ok (t, d) -> (List.length d <= List.length data)%nat.
Proof.
  unfold _parse_tag. destruct (Z.land first_octet 31 =? 31).
  - destruct (_parse_long_tag 0 data) as [[t' d']|] eqn:E; [|discriminate].
    cbn [bind]. destruct (t' <? 31); [discriminate|].
    intros H; inversion H; subst. apply _parse_long_tag_shrinks in E. lia.
  - intros H; inversion H; subst. lia.
Qed.

Lemma _parse_length_shrinks (data : bytes) (n : Z) (d : bytes) :
  _parse_length data = Ok (n, d) -> (List.length d < List.length data)%nat.
Proof.
  destruct data as [|b rest]; simpl; [discriminate|].
  destruct (Z.shiftr (Z_of_byte b) 7 =? 0).
  - intros H; inversion H; subst. lia.
  - destruct (Z.land (Z_of_byte b) 127 =? 0); [discriminate|].
    destruct (len rest <? Z.land (Z_of_byte b) 127); [discriminate|].
    intros H; inversion H; subst. unfold drop. rewrite length_skipn. lia.
Qed.

Lemma _parse_shrinks (data : bytes) (x : tlv) (rest : bytes) :
  _parse data = Ok (x, rest) -> (List.length rest + 2 <= List.length data)%nat.
Proof.
  destruct data as [|first data]; cbn [_parse]; [discriminate|].
  destruct (_parse_tag (Z_of_byte first) data) as [[tg d2]|] eqn:E1; [|discriminate].
  cbn [bind]. destruct (_parse_length d2) as [[n d4]|] eqn:E2; [|discriminate].
  cbn [bind]. destruct (len d4 <? n); [discriminate|].
  intros H; inversion H; subst.
  apply _parse_tag_shrinks in E1. apply _parse_length_shrinks in E2.
  unfold drop. rewrite length_skipn. simpl. lia.
Qed.

Lemma _parse_all_fuel_enough (n m : nat) (data : bytes) :
  (List.length data <= n)%nat -> (List.length data <= m)%nat ->
  _parse_all_fuel n data = _parse_all_fuel m data.
Proof.
  revert m data. induction n as [|n IH]; intros m data Hn Hm.
  - destruct data; [destruct m; reflexivity|simpl in Hn; lia].
  - destruct data as [|b data]; [destruct m; reflexivity|].
    destruct m as [|m]; [simpl in Hm; lia|].
    cbn [_parse_all_fuel].
    destruct (_parse (b :: data)) as [[x rest]|] eqn:E; [|reflexivity].
    cbn [bind]. apply _parse_shrinks in E. simpl in *.
    rewrite (IH m rest) by lia. reflexivity.
Qed.

Lemma _parse_all_nil : _parse_all [] = Ok [].
Proof. reflexivity. Qed.

Lemma _parse_all_step (data : bytes) (x : tlv) (rest : bytes) :
  _parse data = Ok (x, rest) ->
  _parse_all data = (xs <- _parse_all rest ;; Ok (x :: xs)).
Proof.
  intros H. pose proof (_parse_shrinks _ _ _ H) as Hs. unfold _parse_all.
  destruct data as [|b data]; [simpl in Hs; lia|].
  cbn [List.length _parse_all_fuel]. rewrite H. cbn [bind].
  rewrite (_parse_all_fuel_enough (List.length data) (List.length rest)) by (simpl in Hs; lia).
  reflexivity.
Qed.

Lemma dump_tlv_eq (i : ident) (contents : bytes) :
  small_ident i -> len contents < 2 ^ 1000 ->
  dump_tlv i contents = Ok (tlv_bytes i contents).
Proof.
  intros Hi Hn. unfold tlv_bytes.
  destruct (dump_tlv_ok i contents Hi Hn) as (enc & -> & _). reflexivity.
Qed.

Lemma len_tlv_bytes (i : ident) (contents : bytes) :
  small_ident i -> len contents < 2 ^ 1000 ->
  len (tlv_bytes i contents) <= len contents + 129.
Proof.
  intros Hi Hn. unfold tlv_bytes.
  destruct (dump_tlv_ok i contents Hi Hn) as (enc & -> & H). lia.
Qed.

Lemma _parse_tlv_bytes (i : ident) (contents rest : bytes) :
  small_ident i -> len contents < 2 ^ 1000 ->
  _parse (tlv_bytes i contents ++ rest) = Ok (mkTlv i contents, rest).
Proof.
  intros Hi Hn. apply _parse_dump_tlv; [assumption..|]. apply dump_tlv_eq; assumption.
Qed.

Lemma _parse_tlv_bytes_only (i : ident) (contents : bytes) :
  small_ident i -> len contents < 2 ^ 1000 ->
  _parse (tlv_bytes i contents) = Ok (mkTlv i contents, []).
Proof.
  intros Hi Hn. rewrite <- (app_nil_r (tlv_bytes i contents)).
  apply _parse_tlv_bytes; assumption.
Qed.

Lemma _parse_all_tlv_bytes (i : ident) (contents rest : bytes) :
  small_ident i -> len contents < 2 ^ 1000 ->
  _parse_all (tlv_bytes i contents ++ rest)
  = (xs <- _parse_all rest ;; Ok (mkTlv i contents :: xs)).
Proof.
  intros Hi Hn. apply _parse_all_step. apply _parse_tlv_bytes; assumption.
Qed.

(** *** Lengths *)

Lemma len_nil {A : Type} : len (@nil A) = 0.
Proof. reflexivity. Qed.

Lemma len_cons {A : Type} (a : A) (l : list A) : len (a :: l) = 1 + len l.
Proof. unfold len. cbn [List.length]. lia. Qed.

Lemma len_list_byte_of_string (s : string) :
  len (list_byte_of_string s) = Z.of_nat (String.length s).
Proof.
  unfold len. f_equal. induction s as [|c s IH]; [reflexivity|].
  unfold list_byte_of_string in *. cbn. f_equal. exact IH.
Qed.

Lemma len_int_to_bytes (z : Z) : 0 <= z < 2 ^ 63 -> len (int_to_bytes true z) <= 9.
Proof.
  intros Hz. unfold int_to_bytes, len. rewrite length_to_bytes_be.
  destruct (z <? 0) eqn:E; [apply Z.ltb_lt in E; lia|].
  assert (Hb : 0 <= bit_length z <= 63).
  { split; [apply bit_length_nonneg|]. unfold bit_length. rewrite Z.abs_eq by lia.
    destruct (z =? 0) eqn:E0; [lia|]. apply Z.eqb_neq in E0.
    assert (Z.log2 z < 63) by (apply Z.log2_lt_pow2; lia). lia. }
  set (bits := if bit_length z mod 8 =? 0 then bit_length z + 1 else bit_length z).
  assert (0 <= bits <= 64) by (subst bits; destruct (_ =? _); lia).
  unfold width_of_bits. rewrite Z2Nat.id by lia.
  assert ((bits + 7) / 8 <= 9) by (apply Z.div_le_upper_bound; lia). lia.
Qed.

Create Rewrite HintDb len.
#[local] Hint Rewrite @len_app @len_cons @len_nil len_list_byte_of_string : len.

Ltac len_lia := autorewrite with len in *; lia.

(** *** Decoding what [build_as_req] encodes *)

Lemma build_as_req_eq (G : Type) (randint : Z -> Z -> G -> Z * G)
    (username domain : string) (g : G) :
  build_as_req G randint username domain g
  = (dump KRB_AS_REQ (as_req_value username domain (fst (randint 0 INT32_MAX_VAL g))),
     snd (randint 0 INT32_MAX_VAL g)).
Proof.
  unfold build_as_req. destruct (randint 0 INT32_MAX_VAL g) as [nonce g']. reflexivity.
Qed.

Lemma kdc_options_contents (m : list (Z * string)) :
  KDCOptions = BitString m -> bitstring_contents m [] = [x00].
Proof. intros H. inversion H. vm_compute. reflexivity. Qed.

Lemma kdc_options_native (m : list (Z * string)) :
  KDCOptions = BitString m -> bitstring_native m [x00] = Ok (NSet []).
Proof. intros H. inversion H. vm_compute. reflexivity. Qed.

Lemma time_t_zero_native :
  generalizedtime_native (list_byte_of_string TIME_T_ZERO) = Ok (NDatetime 1970 1 1 0 0 0).
Proof. vm_compute. reflexivity. Qed.

#[local] Arguments tlv_bytes : simpl never.
#[local] Arguments int_to_bytes : simpl never.
#[local] Arguments list_byte_of_string : simpl never.
#[local] Arguments bitstring_contents : simpl never.
#[local] Arguments _parse : simpl never.
#[local] Arguments _parse_all : simpl never.
#[local] Arguments dump_tlv : simpl never.
#[local] Arguments int_from_bytes_signed : simpl never.
#[local] Arguments string_of_list_byte : simpl never.
#[local] Arguments bitstring_native : simpl never.
#[local] Arguments generalizedtime_native : simpl never.

(** Unfolds the constants of the module and the one-step definitions of the
    decoder, everywhere, so that identifiers are numerals. *)
Ltac consts :=
  cbv [spec_ident spec_method spec_tag UNIVERSAL CONTEXT APPLICATION
       APPLICATION_TAG AS_REQ_TAG_NUMBER AS_REP_TAG_NUMBER KRB_ERROR_TAG_NUMBER
       KerberosString KerberosStrings Realm KerberosTime Integers PrincipalName
       KDCOptions KDC_REQ_BODY KRB_KDC_REQ KRB_KDC_REP PA_DATA PA_DATA_SEQUENCE_OF
       ETYPE_INFO2 ETYPE_INFO2_ENTRY required optional
       _build _build_contents _unwrap_explicit check load obj_native plain
       _parse_children] in *.

Ltac small :=
  unfold small_ident;
  cbv [class_ method tag spec_ident spec_method spec_tag UNIVERSAL CONTEXT APPLICATION
       APPLICATION_TAG AS_REQ_TAG_NUMBER AS_REP_TAG_NUMBER KRB_ERROR_TAG_NUMBER
       KerberosString KerberosStrings Realm KerberosTime Integers PrincipalName
       KDCOptions KDC_REQ_BODY KRB_KDC_REQ KRB_KDC_REP PA_DATA PA_DATA_SEQUENCE_OF
       ETYPE_INFO2 ETYPE_INFO2_ENTRY];
  lia.

(** One [dump_tlv] whose contents are known is replaced by its result, and
    the length of the result is recorded. *)
Ltac dump_step :=
  match goal with
  | |- context [dump_tlv ?i ?c] =>
      let Hs := fresh "Hs" in
      let Hl := fresh "Hl" in
      assert (Hs : small_ident i) by small;
      assert (Hl : len c < 2 ^ 1000) by len_lia;
      rewrite (dump_tlv_eq i c Hs Hl);
      pose proof (len_tlv_bytes i c Hs Hl);
      clear Hs Hl;
      cbn [bind List.concat app]
  end.

(** One step of the decoder on an encoding written with [tlv_bytes]. *)
Ltac parse_step :=
  match goal with
  | |- context [_parse_all (tlv_bytes ?i ?c ++ ?r)] =>
      rewrite (_parse_all_tlv_bytes i c r); [ | small | len_lia ]
  | |- context [_parse_all []] => rewrite _parse_all_nil
  | |- context [_parse (tlv_bytes ?i ?c ++ ?r)] =>
      rewrite (_parse_tlv_bytes i c r); [ | small | len_lia ]
  | |- context [_parse (tlv_bytes ?i ?c)] =>
      rewrite (_parse_tlv_bytes_only i c); [ | small | len_lia ]
  | |- context [int_from_bytes_signed (int_to_bytes true ?z)] =>
      rewrite (int_to_bytes_signed_nonneg z); [ | first [ lia | cbv; discriminate ] ]
  | |- context [string_of_list_byte (list_byte_of_string ?s)] =>
      rewrite (string_of_list_byte_of_string s)
  | |- context [generalizedtime_native (list_byte_of_string TIME_T_ZERO)] =>
      rewrite time_t_zero_native
  | |- context [bitstring_native ?m [x00]] =>
      rewrite (kdc_options_native m eq_refl)
  end.

Lemma as_req_roundtrip (username domain : string) (nonce : Z) :
  Z.of_nat (String.length username) < 2 ^ 63 ->
  Z.of_nat (String.length domain) < 2 ^ 63 ->
  0 <= nonce <= INT32_MAX_VAL ->
  exists data,
    dump KRB_AS_REQ (as_req_value username domain nonce) = Ok data
    /\ (o <- load KRB_AS_REQ data ;; obj_native o)
       = Ok (as_req_native username domain nonce)
    /\ len data
       <= Z.of_nat (String.length username) + Z.of_nat (String.length domain)
          + Z.of_nat (String.length domain) + 6000.
Proof.
  intros Hu Hd Hn. unfold dump, as_req_value.
  pose proof (len_int_to_bytes nonce ltac:(unfold INT32_MAX_VAL in Hn; lia)).
  pose proof (len_int_to_bytes 5 ltac:(lia)).
  pose proof (len_int_to_bytes AS_MSG_TYPE ltac:(unfold AS_MSG_TYPE; lia)).
  pose proof (len_int_to_bytes NT_PRINCIPAL ltac:(unfold NT_PRINCIPAL; lia)).
  pose proof (len_int_to_bytes NT_SRV_INST ltac:(unfold NT_SRV_INST; lia)).
  pose proof (len_int_to_bytes AES128_CTS_HMAC_SHA1_96_ENC_TYPE
                ltac:(unfold AES128_CTS_HMAC_SHA1_96_ENC_TYPE; lia)).
  pose proof (len_int_to_bytes AES256_CTS_HMAC_SHA1h96_ENC_TYPE
                ltac:(unfold AES256_CTS_HMAC_SHA1h96_ENC_TYPE; lia)).
  assert (len (list_byte_of_string "krbtgt") = 6) by reflexivity.
  assert (len (list_byte_of_string TIME_T_ZERO) = 15) by reflexivity.
  cbn.
  rewrite (kdc_options_contents _ eq_refl).
  repeat dump_step.
  eexists. split; [reflexivity|]. split; [|len_lia].
  unfold load. cbn [explicit base KRB_AS_REQ].
  repeat (first [parse_step | progress consts | progress cbn]).
  reflexivity.
Qed.

(** ** Reading decoded values *)

Lemma bind_ok {A B : Type} (r : result A) (k : A -> result B) (b : B) :
  bind r k = Ok b -> exists a, r = Ok a /\ k a = Ok b.
Proof. destruct r as [a|e]; [|discriminate]. intros H. exists a. split; [reflexivity|exact H]. Qed.

Lemma mapM_Forall2 {A B : Type} (f : A -> result B) (l : list A) (bs : list B) :
  mapM f l = Ok bs -> Forall2 (fun a b => f a = Ok b) l bs.
Proof.
  revert bs. induction l as [|a l IH]; intros bs H; cbn [mapM] in H.
  - inversion H. constructor.
  - apply bind_ok in H. destruct H as (b & Hb & H).
    apply bind_ok in H. destruct H as (bs' & Hbs & H). inversion H; subst.
    constructor; [exact Hb|]. apply IH. exact Hbs.
Qed.

Lemma load_inv (cls : asn1_class) (data : bytes) (o : obj) :
  load cls data = Ok o -> exists c, o = Value (base cls) c.
Proof.
  unfold load, _build. intros H. apply bind_ok in H. destruct H as ([x rest] & _ & H).
  apply bind_ok in H. destruct H as (c & _ & H). inversion H. exists c. reflexivity.
Qed.

(** The children a loop over a [SequenceOf] meets are those whose native
    values make up its [.native]. *)
Lemma iter_native (child : spec) (contents : bytes) (vs : list native) :
  native_of (SequenceOf child) contents = Ok (NList vs) ->
  exists its,
    iter (Value (SequenceOf child) contents) = Ok its
    /\ Forall2 (fun it v => exists c, it = Ok (Value child c) /\ native_of child c = Ok v)
               its vs.
Proof.
  cbn [native_of iter]. intros H. apply bind_ok in H. destruct H as (parts & Hp & H).
  apply bind_ok in H. destruct H as (l & Hl & H). inversion H; subst l; clear H.
  rewrite Hp. cbn [bind]. eexists. split; [reflexivity|].
  apply mapM_Forall2 in Hl. clear Hp. induction Hl as [|x v parts vs Hx Hl IH]; cbn [map].
  - constructor.
  - constructor; [|exact IH].
    apply bind_ok in Hx. destruct Hx as (c & Hc & Hv).
    exists c. unfold _build. rewrite Hc. split; [reflexivity|exact Hv].
Qed.

Lemma natives_of_children_dict (fs : list field) (cs : list (option tlv))
    (d : list (string * native)) (key : string) (v : native) :
  natives_of_children native_of fs cs = Ok d ->
  assoc key d = Some v ->
  exists o, _find_child key fs cs = Ok o /\ obj_native o = Ok v.
Proof.
  revert cs d. induction fs as [|f fs IH]; intros cs d H Hk.
  - cbn in H. inversion H; subst. discriminate.
  - destruct cs as [|c cs]; [cbn in H; inversion H; subst; discriminate|].
    cbn [natives_of_children] in H. apply bind_ok in H. destruct H as (v0 & Hv0 & H).
    apply bind_ok in H. destruct H as (rest & Hrest & H). inversion H; subst d; clear H.
    cbn [assoc] in Hk. cbn [_find_child].
    destruct (String.eqb (f_name f) key).
    + inversion Hk; subst v0; clear Hk. destruct c as [x|]; cbn [_lazy_child].
      * apply bind_ok in Hv0. destruct Hv0 as (c0 & Hc0 & Hn).
        exists (Value (f_spec f) c0). unfold _build. rewrite Hc0. split; [reflexivity|exact Hn].
      * inversion Hv0. exists VOID. split; reflexivity.
    + apply (IH cs rest Hrest Hk).
Qed.

(** A field read from a [Sequence] has the native value the [.native] of
    the sequence gives under its name. *)
Lemma getitem_native (fs : list field) (contents : bytes)
    (d : list (string * native)) (key : string) (v : native) :
  native_of (Sequence fs) contents = Ok (NDict d) ->
  assoc key d = Some v ->
  exists o, getitem (Value (Sequence fs) contents) key = Ok o /\ obj_native o = Ok v.
Proof.
  cbn [native_of getitem]. intros H Hk. apply bind_ok in H. destruct H as (cs & Hcs & H).
  apply bind_ok in H. destruct H as (d' & Hd & H). inversion H; subst d'; clear H.
  rewrite Hcs. cbn [bind]. eapply natives_of_children_dict; eassumption.
Qed.

(** Only a string class has a [str] as native value, and the value is the
    text of its contents. *)
Lemma native_of_NStr (s : spec) (contents : bytes) (str : string) :
  native_of s contents = Ok (NStr str) -> str = string_of_list_byte contents.
Proof.
  destruct s; cbn [native_of]; intros H.
  - discriminate.
  - unfold bitstring_native in H. destruct contents; [discriminate|].
    destruct (_ || _); discriminate.
  - discriminate.
  - inversion H. reflexivity.
  - unfold generalizedtime_native in H.
    repeat match type of H with
           | (if ?c then _ else _) = _ => destruct c; try discriminate
           | match ?x with _ => _ end = _ => destruct x; try discriminate
           end.
  - apply bind_ok in H. destruct H as (? & _ & H).
    apply bind_ok in H. destruct H as (? & _ & H). discriminate.
  - apply bind_ok in H. destruct H as (? & _ & H).
    apply bind_ok in H. destruct H as (? & _ & H). discriminate.
Qed.

(** ** Loops *)

Lemma for_each_first_some {X A : Type} (body : X -> result (option A))
    (its : list X) (rs : list (option A)) :
  Forall2 (fun x r => body x = Ok r) its rs ->
  for_each its body = Ok (first_some rs).
Proof.
  induction 1 as [|x r its rs Hx _ IH]; cbn [for_each first_some]; [reflexivity|].
  rewrite Hx. cbn [bind]. destruct r; [reflexivity|exact IH].
Qed.

Lemma first_some_find {E A : Type} (p : E -> bool) (f : E -> A) (es : list E) :
  first_some (map (fun e => if p e then Some (f e) else None) es)
  = option_map f (find p es).
Proof.
  induction es as [|e es IH]; cbn [map first_some find]; [reflexivity|].
  destruct (p e); [reflexivity|exact IH].
Qed.

Lemma find_app_first {E : Type} (p : E -> bool) (l1 l2 : list E) :
  find p (l1 ++ l2) = match find p l1 with Some x => Some x | None => find p l2 end.
Proof.
  induction l1 as [|a l1 IH]; cbn [app find]; [reflexivity|].
  destruct (p a); [reflexivity|exact IH].
Qed.

Lemma first_some_flat_map {P E A : Type} (q : P -> bool) (sel : P -> list E)
    (p : E -> bool) (f : E -> A) (ps : list P) :
  first_some (map (fun x => if q x then option_map f (find p (sel x)) else None) ps)
  = option_map f (find p (flat_map (fun x => if q x then sel x else []) ps)).
Proof.
  induction ps as [|x ps IH]; cbn [map first_some flat_map]; [reflexivity|].
  destruct (q x).
  - rewrite find_app_first. destruct (find p (sel x)); cbn [option_map]; [reflexivity|exact IH].
  - cbn [app]. exact IH.
Qed.

Lemma Forall2_map_right {A B C : Type} (R : A -> C -> Prop) (g : B -> C)
    (l : list A) (l' : list B) :
  Forall2 R l (map g l') -> Forall2 (fun a b => R a (g b)) l l'.
Proof.
  revert l. induction l' as [|b l' IH]; intros l H; inversion H; subst; constructor.
  - assumption.
  - apply IH. assumption.
Qed.

(** No value class has [None] as native value: a child whose native value
    is [None] is [VOID]. *)
Lemma native_of_not_None (s : spec) (contents : bytes) :
  native_of s contents <> Ok NNone.
Proof.
  destruct s; cbn [native_of]; intros H.
  - discriminate.
  - unfold bitstring_native in H. destruct contents; [discriminate|].
    destruct (_ || _); discriminate.
  - discriminate.
  - discriminate.
  - unfold generalizedtime_native in H.
    repeat match type of H with
           | (if ?c then _ else _) = _ => destruct c; try discriminate
           | match ?x with _ => _ end = _ => destruct x; try discriminate
           end.
  - apply bind_ok in H. destruct H as (? & _ & H).
    apply bind_ok in H. destruct H as (? & _ & H). discriminate.
  - apply bind_ok in H. destruct H as (? & _ & H).
    apply bind_ok in H. destruct H as (? & _ & H). discriminate.
Qed.

(** ** The reply *)

(** What reading an element of an ETYPE-INFO2 gives. *)
Lemma entry_fields (void_id : Z) (c : bytes) (e : EtypeInfo2Entry) :
  native_of ETYPE_INFO2_ENTRY c = Ok (entry_native e) ->
  (o <- getitem (Value ETYPE_INFO2_ENTRY c) "etype" ;; obj_native o) = Ok (NInt (etype e))
  /\ (o <- getitem (Value ETYPE_INFO2_ENTRY c) "salt" ;; obj_native o) = Ok (salt_native e)
  /\ exists o, getitem (Value ETYPE_INFO2_ENTRY c) "salt" = Ok o
               /\ obj_str void_id o = salt_str void_id e.
Proof.
  intros H. unfold ETYPE_INFO2_ENTRY in *.
  destruct (getitem_native _ _ _ "etype" _ H eq_refl) as (o1 & Ho1 & Hn1).
  destruct (getitem_native _ _ _ "salt" _ H eq_refl) as (o2 & Ho2 & Hn2).
  rewrite Ho1, Ho2. cbn [bind]. split; [exact Hn1|]. split; [exact Hn2|].
  exists o2. split; [reflexivity|]. unfold salt_str.
  destruct o2 as [|s2 c2]; cbn [obj_native obj_str] in *.
  - destruct (salt e); [discriminate|reflexivity].
  - destruct (salt e) as [str|].
    + apply native_of_NStr in Hn2. symmetry. exact Hn2.
    + exfalso. exact (native_of_not_None _ _ Hn2).
Qed.

Lemma padata_fields (c : bytes) (p : PaData) :
  native_of PA_DATA c = Ok (padata_native p) ->
  (o <- getitem (Value PA_DATA c) "padata-type" ;; obj_native o) = Ok (NInt (padata_type p))
  /\ (o <- getitem (Value PA_DATA c) "padata-value" ;; obj_native o)
     = Ok (NBytes (padata_value p)).
Proof.
  intros H. unfold PA_DATA in *.
  destruct (getitem_native _ _ _ "padata-type" _ H eq_refl) as (o1 & Ho1 & Hn1).
  destruct (getitem_native _ _ _ "padata-value" _ H eq_refl) as (o2 & Ho2 & Hn2).
  rewrite Ho1, Ho2. cbn [bind]. split; assumption.
Qed.

(** The loop over the elements of one ETYPE-INFO2 value. *)
Lemma entries_loop {A : Type} (value : bytes) (es : list EtypeInfo2Entry)
    (body : result obj -> result (option A)) (p : EtypeInfo2Entry -> bool)
    (f : EtypeInfo2Entry -> A) :
  decodes ETYPE_INFO2 value (NList (map entry_native es)) ->
  (forall c e, native_of ETYPE_INFO2_ENTRY c = Ok (entry_native e) ->
               body (Ok (Value ETYPE_INFO2_ENTRY c)) = Ok (if p e then Some (f e) else None)) ->
  (entries <- (o <- load_native (plain ETYPE_INFO2) (NBytes value) ;; iter o) ;;
   for_each entries body)
  = Ok (option_map f (find p es)).
Proof.
  unfold decodes. intros H Hbody. cbn [load_native].
  apply bind_ok in H. destruct H as (o & Ho & Hn).
  destruct (load_inv _ _ _ Ho) as (c & ->). cbn [plain base obj_native] in Hn.
  rewrite Ho. cbn [bind plain base]. unfold ETYPE_INFO2 in *.
  destruct (iter_native _ _ _ Hn) as (its & Hits & Hall). rewrite Hits. cbn [bind].
  rewrite <- first_some_find. apply for_each_first_some.
  apply Forall2_map_right in Hall.
  clear Hits Hn Ho. induction Hall as [|it e its es (c' & -> & Hc') _ IH]; cbn [map].
  - constructor.
  - constructor; [|exact IH]. apply Hbody. exact Hc'.
Qed.

(** The loop over the PA-DATA of an error reply, entry by entry as
    [SequenceOf.__iter__] builds them. *)
Lemma padatas_loop {A : Type} (e_data : bytes) (pes : list (PaData * list EtypeInfo2Entry))
    (body : result obj -> result (option A)) (p : EtypeInfo2Entry -> bool)
    (f : EtypeInfo2Entry -> A) :
  decodes PA_DATA_SEQUENCE_OF e_data (NList (map padata_native (map fst pes))) ->
  (forall c pe, In pe pes -> native_of PA_DATA c = Ok (padata_native (fst pe)) ->
                body (Ok (Value PA_DATA c))
                = Ok (if padata_type (fst pe) =? PA_ETYPE_INFO2
                      then option_map f (find p (snd pe)) else None)) ->
  (padatas <- (o <- load_native (plain PA_DATA_SEQUENCE_OF) (NBytes e_data) ;; iter o) ;;
   for_each padatas body)
  = Ok (option_map f
          (find p (flat_map (fun pe => if padata_type (fst pe) =? PA_ETYPE_INFO2
                                       then snd pe else []) pes))).
Proof.
  unfold decodes. intros H Hbody. cbn [load_native].
  apply bind_ok in H. destruct H as (o & Ho & Hn).
  destruct (load_inv _ _ _ Ho) as (c & ->). cbn [plain base obj_native] in Hn.
  rewrite Ho. cbn [bind plain base]. unfold PA_DATA_SEQUENCE_OF in *.
  destruct (iter_native _ _ _ Hn) as (its & Hits & Hall). rewrite Hits. cbn [bind].
  rewrite <- (first_some_flat_map (fun pe => padata_type (fst pe) =? PA_ETYPE_INFO2) snd p f).
  apply for_each_first_some.
  rewrite map_map in Hall. apply Forall2_map_right in Hall.
  clear Hits Hn Ho. induction Hall as [|it pe its pes (c' & -> & Hc') _ IH]; cbn [map].
  - constructor.
  - constructor.
    + apply Hbody; [left; reflexivity|exact Hc'].
    + apply IH. intros c0 pe0 Hin. apply Hbody. right. exact Hin.
Qed.

(** The error path, for a reply that decodes down to its ETYPE-INFO2
    elements: the salt comes from the first AES256 element of the ETYPE-INFO2
    values taken in order. *)
Lemma error_path_scan (void_id : Z) (kdc_rep : bytes) (any : tlv) (err : obj)
    (e_data : bytes) (pes : list (PaData * list EtypeInfo2Entry)) :
  Any_load kdc_rep = Ok any ->
  tag (t_ident any) = KRB_ERROR_TAG_NUMBER ->
  load KRB_ERROR kdc_rep = Ok err ->
  (o <- getitem err "error-code" ;; obj_native o) = Ok (NInt KDC_ERR_PREAUTH_REQUIRED) ->
  (o <- getitem err "e-data" ;; obj_native o) = Ok (NBytes e_data) ->
  decodes PA_DATA_SEQUENCE_OF e_data (NList (map padata_native (map fst pes))) ->
  etype_info2_decoded pes ->
  get_salt_from_rep void_id kdc_rep
  = match first_match is_aes256 pes with
    | Some e => Ok (py_str (salt_native e))
    | None => Raise (could_not_retrieve KRB_ERROR_TAG_NUMBER)
    end.
Proof.
  intros Hany Htag Herr Hcode Hdata Hpas Hes.
  unfold get_salt_from_rep. rewrite Hany. cbn [bind]. rewrite Htag.
  rewrite Z.eqb_refl. rewrite Herr. cbn [bind]. rewrite Hcode. cbn [bind eq_int].
  rewrite Z.eqb_refl. rewrite Hdata. cbn [bind].
  erewrite (padatas_loop e_data pes _ (fun e => is_aes256 (etype e))
              (fun e => py_str (salt_native e)) Hpas).
  - cbn [bind]. unfold first_match.
    destruct (find _ _); reflexivity.
  - intros c pe Hin Hc. cbn [bind].
    destruct (padata_fields c (fst pe) Hc) as (Hty & Hval).
    rewrite Hty. cbn [bind eq_int].
    destruct (padata_type (fst pe) =? PA_ETYPE_INFO2) eqn:E; [|reflexivity].
    rewrite Hval. cbn [bind].
    unfold etype_info2_decoded in Hes. rewrite Forall_forall in Hes.
    apply Z.eqb_eq in E.
    apply (entries_loop _ (snd pe) _ (fun e => is_aes256 (etype e))
             (fun e => py_str (salt_native e)) (Hes pe Hin E)).
    intros c' e Hc'. cbn [bind].
    destruct (entry_fields void_id c' e Hc') as (Het & Hsalt & _).
    rewrite Het. cbn [bind eq_int]. unfold is_aes256.
    destruct (etype e =? AES256_CTS_HMAC_SHA1h96_ENC_TYPE); [|reflexivity].
    rewrite Hsalt. reflexivity.
Qed.


(** C1 (as amended): for a KRB-ERROR reply with error code 25 whose e-data
    decodes as a PA-DATA list, the extractor goes through every entry of type
    ETYPE-INFO2 in order, decodes its value as an ETYPE-INFO2 list, and stops
    at the first element whose etype is AES256, whichever ETYPE-INFO2 entry
    holds it: the salt of that element, when it has one, is returned; when no
    ETYPE-INFO2 entry holds such an element the call fails with the message
    that carries tag number 30. *)
Theorem error_path_scans_all_etype_info2 :
  forall (void_id : Z) (kdc_rep : bytes) (any : tlv) (err : obj) (e_data : bytes)
         (pes : list (PaData * list EtypeInfo2Entry)),
    Any_load kdc_rep = Ok any ->
    tag (t_ident any) = KRB_ERROR_TAG_NUMBER ->
    load KRB_ERROR kdc_rep = Ok err ->
    (o <- getitem err "error-code" ;; obj_native o) = Ok (NInt KDC_ERR_PREAUTH_REQUIRED) ->
    (o <- getitem err "e-data" ;; obj_native o) = Ok (NBytes e_data) ->
    decodes PA_DATA_SEQUENCE_OF e_data (NList (map padata_native (map fst pes))) ->
    etype_info2_decoded pes ->
    match first_match is_aes256 pes with
    | Some e =>
        forall s, salt e = Some s -> get_salt_from_rep void_id kdc_rep = Ok s
    | None =>
        get_salt_from_rep void_id kdc_rep
        = Raise (Exception "Could not retrieve salt from AS_REP (tag number 30)")
    end.
Proof.
  intros void_id kdc_rep any err e_data pes H1 H2 H3 H4 H5 H6 H7.
  rewrite (error_path_scan void_id kdc_rep any err e_data pes H1 H2 H3 H4 H5 H6 H7).
  destruct (first_match is_aes256 pes) as [e|]; [|reflexivity].
  intros s Hs. unfold salt_native. rewrite Hs. reflexivity.
Qed.

Lemma two_etype_info2_decoded : etype_info2_decoded two_etype_info2.
Proof.
  unfold etype_info2_decoded, two_etype_info2.
  repeat constructor; intros _; vm_compute; reflexivity.
Qed.

Lemma error_path_scans_all_etype_info2_witness :
  get_salt_from_rep 0 reply_two_etype_info2 = Ok "B".
Proof.
  eapply (fun any err e_data H1 H2 H3 H4 H5 H6 =>
            error_path_scans_all_etype_info2 0 reply_two_etype_info2 any err e_data
              two_etype_info2 H1 H2 H3 H4 H5 H6 two_etype_info2_decoded "B" eq_refl).
  - vm_compute. reflexivity.
  - vm_compute. reflexivity.
  - vm_compute. reflexivity.
  - vm_compute. reflexivity.
  - vm_compute. reflexivity.
  - vm_compute. reflexivity.
Defined.

(** C1, as stated, fails on a reply with two ETYPE-INFO2 entries: the first
    holds no AES256 element, so the claim has the call fail there, yet the
    call returns the salt held by the second entry. *)
Lemma error_path_first_entry_only_counterexample :
  (exists err e_data,
      load KRB_ERROR reply_two_etype_info2 = Ok err
      /\ (o <- getitem err "error-code" ;; obj_native o) = Ok (NInt 25)
      /\ (o <- getitem err "e-data" ;; obj_native o) = Ok (NBytes e_data)
      /\ decodes PA_DATA_SEQUENCE_OF e_data
           (NList (map padata_native (map fst two_etype_info2))))
  /\ etype_info2_decoded two_etype_info2
  /\ first_etype_info2_only two_etype_info2 = None
  /\ get_salt_from_rep 0 reply_two_etype_info2 = Ok "B".
Proof.
  split; [|split; [exact two_etype_info2_decoded|split; vm_compute; reflexivity]].
  eexists. eexists. repeat split; vm_compute; reflexivity.
Qed.

(** C2 (the code departs from it): on the error path, an AES256 element
    that carries no salt makes the call return the text [None] instead of
    failing. *)
Theorem error_path_absent_salt_returns_None :
  forall void_id : Z, get_salt_from_rep void_id reply_error_no_salt = Ok "None".
Proof. intros void_id. vm_compute. reflexivity. Qed.

(** C3: a KRB-ERROR reply whose error code is not 25 makes the call fail
    with the module's exception, whose message carries tag number 30; no salt
    is returned. *)
Theorem krb_error_other_code_fails :
  forall (void_id : Z) (kdc_rep : bytes) (any : tlv) (err : obj) (code : Z),
    Any_load kdc_rep = Ok any ->
    tag (t_ident any) = KRB_ERROR_TAG_NUMBER ->
    load KRB_ERROR kdc_rep = Ok err ->
    (o <- getitem err "error-code" ;; obj_native o) = Ok (NInt code) ->
    code <> KDC_ERR_PREAUTH_REQUIRED ->
    get_salt_from_rep void_id kdc_rep
    = Raise (Exception "Could not retrieve salt from AS_REP (tag number 30)").
Proof.
  intros void_id kdc_rep any err code Hany Htag Herr Hcode Hne.
  unfold get_salt_from_rep. rewrite Hany. cbn [bind]. rewrite Htag, Z.eqb_refl.
  rewrite Herr. cbn [bind]. rewrite Hcode. cbn [bind eq_int].
  apply Z.eqb_neq in Hne. rewrite Hne. reflexivity.
Qed.

Lemma krb_error_other_code_fails_witness :
  get_salt_from_rep 0 reply_other_error
  = Raise (Exception "Could not retrieve salt from AS_REP (tag number 30)").
Proof.
  eapply (fun any err H1 H2 H3 H4 =>
            krb_error_other_code_fails 0 reply_other_error any err 6 H1 H2 H3 H4
              ltac:(discriminate)).
  - vm_compute. reflexivity.
  - vm_compute. reflexivity.
  - vm_compute. reflexivity.
  - vm_compute. reflexivity.
Defined.





(** C10 (the code departs from it): on an AS-REP whose accepted element
    carries no salt, the returned text contains [id(VOID)], so two
    interpreters in which [VOID] lives at different addresses return
    different results for the same bytes. *)
Theorem as_rep_absent_salt_depends_on_interpreter :
  get_salt_from_rep 1 reply_as_rep_no_salt <> get_salt_from_rep 2 reply_as_rep_no_salt.
Proof. vm_compute. discriminate. Qed.

(** ** The request *)

Lemma counter_randint_range (a b g : Z) : a <= b -> a <= fst (counter_randint a b g) <= b.
Proof.
  intros H. unfold counter_randint. cbn [fst].
  pose proof (Z.mod_pos_bound g (b - a + 1) ltac:(lia)). lia.
Qed.

(** C6: for every principal name and realm (of a length a Python string
    can have), [build_as_req] returns bytes, and decoding them as an AS-REQ
    gives protocol version 5, message type 10, no padata, an empty set of KDC
    options, cname [username] of type 1, the realm, sname [krbtgt/realm] of
    type 2, till at the epoch, etypes 17 then 18, and a nonce between 0 and
    0x7FFFFFFF, whatever the random source draws within its bounds. *)
Theorem build_as_req_decodes :
  forall (G : Type) (randint : Z -> Z -> G -> Z * G),
    (forall (a b : Z) (g : G), a <= b -> a <= fst (randint a b g) <= b) ->
    forall (username domain : string) (g : G),
      Z.of_nat (String.length username) < 2 ^ 63 ->
      Z.of_nat (String.length domain) < 2 ^ 63 ->
      exists (data : bytes) (nonce : Z),
        fst (build_as_req G randint username domain g) = Ok data
        /\ 0 <= nonce <= 0x7FFFFFFF
        /\ (o <- load KRB_AS_REQ data ;; obj_native o)
           = Ok (NDict
                   [("pvno", NInt 5); ("msg-type", NInt 10); ("padata", NNone);
                    ("req-body",
                     NDict
                       [("kdc-options", NSet []);
                        ("cname", NDict [("name-type", NInt 1);
                                         ("name-string", NList [NStr username])]);
                        ("realm", NStr domain);
                        ("sname", NDict [("name-type", NInt 2);
                                         ("name-string",
                                          NList [NStr "krbtgt"; NStr domain])]);
                        ("from", NNone);
                        ("till", NDatetime 1970 1 1 0 0 0);
                        ("rtime", NNone);
                        ("nonce", NInt nonce);
                        ("etype", NList [NInt 17; NInt 18]);
                        ("addresses", NNone);
                        ("enc-authorization-data", NNone);
                        ("additional-tickets", NNone)])]).
Proof.
  intros G randint Hrange username domain g Hu Hd.
  pose proof (Hrange 0 INT32_MAX_VAL g ltac:(unfold INT32_MAX_VAL; lia)) as Hn.
  destruct (as_req_roundtrip username domain _ Hu Hd Hn) as (data & Hdump & Hload & _).
  exists data, (fst (randint 0 INT32_MAX_VAL g)).
  rewrite build_as_req_eq. cbn [fst]. split; [exact Hdump|]. split; [exact Hn|].
  exact Hload.
Qed.

Lemma build_as_req_decodes_witness :
  exists (data : bytes) (nonce : Z),
    fst (build_as_req Z counter_randint "svc$" "EXAMPLE.COM" 12345) = Ok data
    /\ 0 <= nonce <= 0x7FFFFFFF
    /\ (o <- load KRB_AS_REQ data ;; obj_native o)
       = Ok (as_req_native "svc$" "EXAMPLE.COM" nonce).
Proof.
  apply (build_as_req_decodes Z counter_randint counter_randint_range
           "svc$" "EXAMPLE.COM" 12345); vm_compute; reflexivity.
Defined.

(** C9: two calls of [build_as_req] for the same principal and realm return
    encodings whose decoded values are equal once the nonce is blanked, and
    the encodings are equal when the two draws are: the random source reaches
    the nonce and nothing else. *)
Theorem build_as_req_randomness_reaches_nonce_only :
  forall (G : Type) (randint : Z -> Z -> G -> Z * G),
    (forall (a b : Z) (g : G), a <= b -> a <= fst (randint a b g) <= b) ->
    forall (username domain : string) (g1 g2 : G),
      Z.of_nat (String.length username) < 2 ^ 63 ->
      Z.of_nat (String.length domain) < 2 ^ 63 ->
      exists (d1 d2 : bytes) (v1 v2 : native),
        fst (build_as_req G randint username domain g1) = Ok d1
        /\ fst (build_as_req G randint username domain g2) = Ok d2
        /\ (o <- load KRB_AS_REQ d1 ;; obj_native o) = Ok v1
        /\ (o <- load KRB_AS_REQ d2 ;; obj_native o) = Ok v2
        /\ without_nonce v1 = without_nonce v2
        /\ (fst (randint 0 INT32_MAX_VAL g1) = fst (randint 0 INT32_MAX_VAL g2) -> d1 = d2).
Proof.
  intros G randint Hrange username domain g1 g2 Hu Hd.
  pose proof (Hrange 0 INT32_MAX_VAL g1 ltac:(unfold INT32_MAX_VAL; lia)) as Hn1.
  pose proof (Hrange 0 INT32_MAX_VAL g2 ltac:(unfold INT32_MAX_VAL; lia)) as Hn2.
  destruct (as_req_roundtrip username domain _ Hu Hd Hn1) as (d1 & Hdump1 & Hload1 & _).
  destruct (as_req_roundtrip username domain _ Hu Hd Hn2) as (d2 & Hdump2 & Hload2 & _).
  exists d1, d2, (as_req_native username domain (fst (randint 0 INT32_MAX_VAL g1))),
    (as_req_native username domain (fst (randint 0 INT32_MAX_VAL g2))).
  rewrite !build_as_req_eq. cbn [fst].
  repeat split; try assumption.
  intros Heq. rewrite Heq in Hdump1. rewrite Hdump1 in Hdump2. congruence.
Qed.

Lemma build_as_req_randomness_reaches_nonce_only_witness :
  exists (d1 d2 : bytes) (v1 v2 : native),
    fst (build_as_req Z counter_randint "svc$" "EXAMPLE.COM" 1) = Ok d1
    /\ fst (build_as_req Z counter_randint "svc$" "EXAMPLE.COM" 2) = Ok d2
    /\ (o <- load KRB_AS_REQ d1 ;; obj_native o) = Ok v1
    /\ (o <- load KRB_AS_REQ d2 ;; obj_native o) = Ok v2
    /\ without_nonce v1 = without_nonce v2
    /\ (fst (counter_randint 0 INT32_MAX_VAL 1) = fst (counter_randint 0 INT32_MAX_VAL 2)
        -> d1 = d2).
Proof.
  apply (build_as_req_randomness_reaches_nonce_only Z counter_randint counter_randint_range
           "svc$" "EXAMPLE.COM" 1 2); vm_compute; reflexivity.
Defined.

(** ** Failures *)

(** Takes apart the hypotheses [... = Raise e] along the binds and tests
    of the computation that raised. *)
Ltac raise_cases :=
  repeat match goal with
         | H : Raise _ = Raise _ |- _ => inversion H; subst; clear H
         | H : Ok _ = Raise _ |- _ => discriminate H
         | H : bind ?r _ = Raise _ |- _ =>
             let E := fresh "E" in destruct r eqn:E; cbn [bind] in H
         | H : (if ?c then _ else _) = Raise _ |- _ => destruct c
         | H : match ?x with _ => _ end = Raise _ |- _ => destruct x
         end.

Create HintDb raised.

Lemma _parse_long_tag_raised (acc : Z) (data : bytes) (e : exn) :
  _parse_long_tag acc data = Raise e -> raised_below e.
Proof.
  revert acc. induction data as [|b data IH]; intros acc H; cbn [_parse_long_tag] in H.
  - inversion H. exact I.
  - cbv zeta in H. destruct (_ && _); [inversion H; exact I|].
    destruct (_ =? _); [discriminate|]. eapply IH. exact H.
Qed.
#[local] Hint Resolve _parse_long_tag_raised : raised.

Lemma _parse_raised (data : bytes) (e : exn) : _parse data = Raise e -> raised_below e.
Proof.
  unfold _parse, _parse_tag, _parse_length. intros H.
  raise_cases; try exact I; eauto with raised.
Qed.
#[local] Hint Resolve _parse_raised : raised.

Lemma _parse_all_fuel_raised (fuel : nat) (data : bytes) (e : exn) :
  _parse_all_fuel fuel data = Raise e -> raised_below e.
Proof.
  revert data. induction fuel as [|fuel IH]; intros data H;
    destruct data; cbn [_parse_all_fuel] in H; raise_cases;
    try exact I; eauto with raised.
Qed.

Lemma _parse_all_raised (data : bytes) (e : exn) : _parse_all data = Raise e -> raised_below e.
Proof. apply _parse_all_fuel_raised. Qed.
#[local] Hint Resolve _parse_all_raised : raised.

Lemma _unwrap_explicit_raised (expl : list (Z * Z)) (x : tlv) (e : exn) :
  _unwrap_explicit expl x = Raise e -> raised_below e.
Proof.
  revert x. induction expl as [|[c t] expl IH]; intros x H; cbn [_unwrap_explicit] in H.
  - discriminate.
  - unfold check in H. raise_cases; try exact I; eauto with raised.
Qed.
#[local] Hint Resolve _unwrap_explicit_raised : raised.

Lemma _build_contents_raised (expl : list (Z * Z)) (s : spec) (x : tlv) (e : exn) :
  _build_contents expl s x = Raise e -> raised_below e.
Proof.
  unfold _build_contents, check. intros H. raise_cases; try exact I; eauto with raised.
Qed.
#[local] Hint Resolve _build_contents_raised : raised.

Lemma _build_raised (expl : list (Z * Z)) (s : spec) (x : tlv) (e : exn) :
  _build expl s x = Raise e -> raised_below e.
Proof. unfold _build. intros H. raise_cases; eauto with raised. Qed.
#[local] Hint Resolve _build_raised : raised.

Lemma load_raised (cls : asn1_class) (data : bytes) (e : exn) :
  load cls data = Raise e -> raised_below e.
Proof. unfold load. intros H. raise_cases; eauto with raised. Qed.
#[local] Hint Resolve load_raised : raised.

Lemma load_native_raised (cls : asn1_class) (v : native) (e : exn) :
  load_native cls v = Raise e -> raised_below e.
Proof.
  unfold load_native. intros H. destruct v; try (inversion H; exact I).
  eauto with raised.
Qed.
#[local] Hint Resolve load_native_raised : raised.

Lemma _match_fields_raised (fs : list field) (parts : list tlv) (e : exn) :
  _match_fields fs parts = Raise e -> raised_below e.
Proof.
  revert parts. induction fs as [|f fs IH]; intros parts H; cbn [_match_fields] in H.
  - destruct parts; [discriminate|inversion H; exact I].
  - cbv zeta in H. raise_cases; try exact I; eauto.
Qed.
#[local] Hint Resolve _match_fields_raised : raised.

Lemma _parse_children_raised (fs : list field) (contents : bytes) (e : exn) :
  _parse_children fs contents = Raise e -> raised_below e.
Proof. unfold _parse_children. intros H. raise_cases; eauto with raised. Qed.
#[local] Hint Resolve _parse_children_raised : raised.

Lemma _find_child_raised (key : string) (fs : list field) (cs : list (option tlv))
    (e : exn) :
  _find_child key fs cs = Raise e -> raised_below e.
Proof.
  revert cs. induction fs as [|f fs IH]; intros cs H; cbn [_find_child] in H.
  - inversion H. exact I.
  - destruct cs as [|c cs]; [inversion H; exact I|].
    destruct (String.eqb _ _); [|eauto].
    destruct c; cbn [_lazy_child] in H; [eauto with raised|discriminate].
Qed.
#[local] Hint Resolve _find_child_raised : raised.

Lemma getitem_raised (o : obj) (key : string) (e : exn) :
  getitem o key = Raise e -> raised_below e.
Proof.
  unfold getitem. intros H. destruct o as [|s c]; [inversion H; exact I|].
  destruct s; try (inversion H; exact I). raise_cases; eauto with raised.
Qed.
#[local] Hint Resolve getitem_raised : raised.

Lemma iter_raised (o : obj) (e : exn) : iter o = Raise e -> raised_below e.
Proof.
  unfold iter. intros H. destruct o as [|s c]; [discriminate|].
  destruct s; try (inversion H; exact I). raise_cases; eauto with raised.
Qed.
#[local] Hint Resolve iter_raised : raised.


Lemma mapM_raised {A B : Type} (f : A -> result B) (l : list A) (e : exn) :
  (forall a e', f a = Raise e' -> raised_below e') ->
  mapM f l = Raise e -> raised_below e.
Proof.
  intros Hf. induction l as [|a l IH]; intros H; cbn [mapM] in H; [discriminate|].
  raise_cases; eauto.
Qed.

Lemma spec_nested_ind (P : spec -> Prop) :
  P Integer -> (forall m, P (BitString m)) -> P OctetString -> P GeneralString ->
  P GeneralizedTime ->
  (forall fs, Forall (fun f => P (f_spec f)) fs -> P (Sequence fs)) ->
  (forall child, P child -> P (SequenceOf child)) ->
  forall s, P s.
Proof.
  intros Hi Hb Ho Hg Ht Hs Hof. fix IH 1. intros [ |m| | | |fs|child].
  - exact Hi.
  - apply Hb.
  - exact Ho.
  - exact Hg.
  - exact Ht.
  - apply Hs. induction fs as [|f fs IHfs]; constructor; [apply IH|exact IHfs].
  - apply Hof. apply IH.
Qed.

Lemma natives_of_children_raised (fs : list field) (cs : list (option tlv)) (e : exn) :
  Forall (fun f => forall c e', native_of (f_spec f) c = Raise e' -> raised_below e') fs ->
  natives_of_children native_of fs cs = Raise e -> raised_below e.
Proof.
  intros Hfs. revert cs. induction Hfs as [|f fs Hf _ IH]; intros cs H;
    cbn [natives_of_children] in H; [discriminate|].
  destruct cs as [|c cs]; [discriminate|].
  raise_cases; eauto with raised.
Qed.

Lemma native_of_raised (s : spec) :
  forall (contents : bytes) (e : exn), native_of s contents = Raise e -> raised_below e.
Proof.
  induction s as [ |m| | | |fs IHfs|child IHchild] using spec_nested_ind;
    intros contents e Hr; cbn [native_of] in Hr.
  - discriminate.
  - unfold bitstring_native in Hr. raise_cases; exact I.
  - discriminate.
  - discriminate.
  - unfold generalizedtime_native in Hr. cbv zeta in Hr. raise_cases; exact I.
  - raise_cases; eauto using natives_of_children_raised with raised.
  - raise_cases; eauto with raised.
    eapply mapM_raised; [|eassumption].
    intros x e' Hx. cbv beta in Hx. raise_cases; eauto with raised.
Qed.
#[local] Hint Resolve native_of_raised : raised.

Lemma obj_native_raised (o : obj) (e : exn) : obj_native o = Raise e -> raised_below e.
Proof. destruct o; cbn [obj_native]; [discriminate|eauto with raised]. Qed.
#[local] Hint Resolve obj_native_raised : raised.

Lemma native_getitem_raised (v : native) (key : string) (e : exn) :
  native_getitem v key = Raise e -> raised_below e.
Proof. unfold native_getitem. intros H. raise_cases; exact I. Qed.
#[local] Hint Resolve native_getitem_raised : raised.

Lemma native_iter_raised (v : native) (e : exn) : native_iter v = Raise e -> raised_below e.
Proof. unfold native_iter. intros H. destruct v; inversion H; exact I. Qed.
#[local] Hint Resolve native_iter_raised : raised.






(** ** The offline salt *)

Lemma rstrip_list_spec {A : Type} (p : A -> bool) (l : list A) :
  exists suffix,
    l = rstrip_list p l ++ suffix
    /\ forallb p suffix = true
    /\ (forall t x, rstrip_list p l = t ++ [x] -> p x = false).
Proof.
  induction l as [|a l (suffix & Heq & Hall & Hlast)]; cbn [rstrip_list].
  - exists []. repeat split. intros t x H. destruct t; cbn in H; discriminate.
  - destruct (rstrip_list p l) as [|b r] eqn:E.
    + cbn [app] in Heq. subst l. destruct (p a) eqn:Ea.
      * exists (a :: suffix). repeat split.
        -- cbn [forallb]. rewrite Ea, Hall. reflexivity.
        -- intros t x H. destruct t; cbn in H; discriminate.
      * exists suffix. repeat split; [exact Hall|].
        intros t x H. destruct t as [|a' t]; cbn in H.
        -- inversion H; subst. exact Ea.
        -- inversion H; subst. destruct t; cbn in *; discriminate.
    + exists suffix. rewrite Heq. repeat split; [exact Hall|].
      intros t x H. destruct t as [|a' t]; cbn in H; inversion H; subst.
      eapply Hlast. eassumption.
Qed.

Lemma string_of_list_ascii_app (l1 l2 : list ascii) :
  string_of_list_ascii (l1 ++ l2)
  = (string_of_list_ascii l1 ++ string_of_list_ascii l2)%string.
Proof. induction l1 as [|a l1 IH]; cbn; [reflexivity|]. rewrite IH. reflexivity. Qed.

Lemma list_ascii_of_string_app (s1 s2 : string) :
  list_ascii_of_string (s1 ++ s2)%string = list_ascii_of_string s1 ++ list_ascii_of_string s2.
Proof. induction s1 as [|a s1 IH]; cbn; [reflexivity|]. rewrite IH. reflexivity. Qed.

Lemma all_dollars (l : list ascii) :
  forallb (fun c => mem_char c "$") l = true -> l = repeat "$"%char (List.length l).
Proof.
  induction l as [|c l IH]; cbn [forallb List.length repeat]; [reflexivity|].
  intros H. apply andb_prop in H. destruct H as [Hc Hl].
  unfold mem_char in Hc. cbn in Hc. rewrite orb_false_r in Hc.
  apply Ascii.eqb_eq in Hc. subst c. f_equal. apply IH. exact Hl.
Qed.

(** C7 (as amended): the heuristic removes every trailing [$] of the
    account name: the account name is a stem that does not end in [$]
    followed by some number of [$], and the salt is the realm in upper case,
    [host], the stem, a dot and the realm in lower case.  For the account
    [SVC$] and the realm [example.com] it is [EXAMPLE.COMhostSVC.example.com].
    The function always returns a string. *)
Theorem heuristic_strips_every_trailing_dollar :
  (forall account_name realm : string,
      exists (stem : string) (n : nat),
        account_name = (stem ++ string_of_list_ascii (repeat "$"%char n))%string
        /\ (forall t : string, stem <> (t ++ "$")%string)
        /\ get_salt_from_heuristic account_name realm
           = (upper realm ++ "host" ++ stem ++ "." ++ lower realm)%string)
  /\ get_salt_from_heuristic "SVC$" "example.com" = "EXAMPLE.COMhostSVC.example.com".
Proof.
  split; [|vm_compute; reflexivity].
  intros account_name realm.
  destruct (rstrip_list_spec (fun c => mem_char c "$") (list_ascii_of_string account_name))
    as (suffix & Heq & Hall & Hlast).
  exists (rstrip "$" account_name), (List.length suffix). repeat split.
  - unfold rstrip. rewrite <- (all_dollars suffix Hall), <- string_of_list_ascii_app, <- Heq.
    symmetry. apply string_of_list_ascii_of_string.
  - intros t Ht. unfold rstrip in Ht.
    apply (f_equal list_ascii_of_string) in Ht.
    rewrite list_ascii_of_string_of_list_ascii, list_ascii_of_string_app in Ht.
    apply Hlast in Ht. discriminate.
Qed.

(** C7, as stated, fails on an account name that ends in two [$]: the
    claim keeps the first of them, the code removes both. *)
Lemma heuristic_one_dollar_counterexample :
  get_salt_from_heuristic "SVC$$" "example.com" = "EXAMPLE.COMhostSVC.example.com"
  /\ heuristic_with_one_dollar_stripped "SVC$$" "example.com"
     = "EXAMPLE.COMhostSVC$.example.com".
Proof. split; vm_compute; reflexivity. Qed.

(** ** The transport *)

(** C8 (the code departs from it): over TCP, when the three-byte body of
    the reply arrives in two segments, the second [recv] returns only what the
    first segment still holds, and [send_as_req] returns two bytes of the
    three. *)
Theorem tcp_reply_in_two_segments_is_cut :
  exists s : socket,
    fst (send_as_req Z counter_randint split_reply_network
           "dc.example.com" "svc$" "EXAMPLE.COM" false 0)
    = Ok ([x01; x02], s)
    /\ s_inbox s = [[x03]].
Proof. eexists. split; vm_compute; reflexivity. Qed.

Lemma take_all {A : Type} (l : list A) : take (len l) l = l.
Proof. unfold take, len. rewrite Nat2Z.id. apply firstn_all. Qed.

Lemma drop_all {A : Type} (l : list A) : drop (len l) l = [].
Proof. unfold drop, len. rewrite Nat2Z.id. apply skipn_all. Qed.

Lemma take_app_exact {A : Type} (n : Z) (l1 l2 : list A) :
  len l1 = n -> take n (l1 ++ l2) = l1.
Proof. intros <-. apply take_app_len. Qed.

Lemma drop_app_exact {A : Type} (n : Z) (l1 l2 : list A) :
  len l1 = n -> drop n (l1 ++ l2) = l2.
Proof. intros <-. apply drop_app_len. Qed.

Lemma len_to_bytes_be (w : nat) (v : Z) : len (to_bytes_be w v) = Z.of_nat w.
Proof. unfold len. rewrite length_to_bytes_be. reflexivity. Qed.

Lemma struct_pack_i_small (v : Z) :
  0 <= v < 2 ^ 31 -> struct_pack_i v = Ok (to_bytes_be 4 v).
Proof.
  intros Hv. unfold struct_pack_i.
  destruct (- 2 ^ 31 <=? v) eqn:E1; [|apply Z.leb_gt in E1; lia].
  destruct (v <? 2 ^ 31) eqn:E2; [|apply Z.ltb_ge in E2; lia].
  cbn [andb]. rewrite Z.mod_small by lia. reflexivity.
Qed.

Lemma struct_unpack_i_small (v : Z) :
  0 <= v < 2 ^ 31 -> struct_unpack_i (to_bytes_be 4 v) = Ok v.
Proof.
  intros Hv. unfold struct_unpack_i, int_from_bytes_signed.
  rewrite len_to_bytes_be, int_from_to_bytes_be.
  change (Z.of_nat 4 =? 4) with true. cbv iota.
  change (8 * Z.of_nat 4) with 32. change (Z.of_nat 4) with 4.
  rewrite Z.mod_small by lia.
  destruct (2 ^ (32 - 1) <=? v) eqn:E; [apply Z.leb_le in E; lia|reflexivity].
Qed.

(** Over TCP, when the reply arrives whole, a four-byte big-endian length
    prefix followed by the body, [send_as_req] sends the request behind its
    own prefix and returns the body, without the prefix. *)
Theorem tcp_whole_reply_is_returned :
  forall (G : Type) (randint : Z -> Z -> G -> Z * G),
    (forall (a b : Z) (g : G), a <= b -> a <= fst (randint a b g) <= b) ->
    forall (network : sock_type -> string -> Z -> option (bytes -> list bytes))
           (dc username domain : string) (g : G) (peer : bytes -> list bytes)
           (body : bytes),
      Z.of_nat (String.length username) < 2 ^ 20 ->
      Z.of_nat (String.length domain) < 2 ^ 20 ->
      len body < 2 ^ 31 ->
      network SOCK_STREAM dc KERBEROS_PORT = Some peer ->
      (forall request, peer request = [to_bytes_be 4 (len body) ++ body]) ->
      exists (data : bytes) (s : socket),
        fst (build_as_req G randint username domain g) = Ok data
        /\ fst (send_as_req G randint network dc username domain false g) = Ok (body, s)
        /\ s_sent s = [to_bytes_be 4 (len data) ++ data].
Proof.
  intros G randint Hrange network dc username domain g peer body Hu Hd Hb Hnet Hpeer.
  pose proof (Hrange 0 INT32_MAX_VAL g ltac:(unfold INT32_MAX_VAL; lia)) as Hn.
  destruct (as_req_roundtrip username domain _ ltac:(lia) ltac:(lia) Hn)
    as (data & Hdump & _ & Hlen).
  pose proof (len_nonneg data) as Hd0. pose proof (len_nonneg body) as Hb0.
  unfold send_as_req, connect. rewrite Hnet, build_as_req_eq. cbn [fst snd].
  rewrite Hdump. cbn [bind].
  rewrite (struct_pack_i_small (len data)) by lia. cbn [bind].
  unfold sendall. cbn [s_type s_peer s_sent s_inbox app]. rewrite Hpeer.
  unfold recv at 1. cbn [s_type s_inbox s_peer s_sent].
  change (4 <? 0) with false. cbv iota.
  rewrite (take_app_exact 4), (drop_app_exact 4) by apply (len_to_bytes_be 4).
  exists data. cbn [bind]. rewrite struct_unpack_i_small by lia. cbn [bind].
  unfold recv. cbn [s_type s_inbox s_peer s_sent].
  destruct (len body <? 0) eqn:E; [apply Z.ltb_lt in E; lia|].
  destruct body as [|b body].
  - eexists. split; [reflexivity|]. split; reflexivity.
  - rewrite take_all, drop_all.
    eexists. split; [reflexivity|]. split; reflexivity.
Qed.

Lemma tcp_whole_reply_is_returned_witness :
  exists (data : bytes) (s : socket),
    fst (build_as_req Z counter_randint "svc$" "EXAMPLE.COM" 0) = Ok data
    /\ fst (send_as_req Z counter_randint whole_reply_network
              "dc.example.com" "svc$" "EXAMPLE.COM" false 0)
       = Ok ([x01; x02; x03], s)
    /\ s_sent s = [to_bytes_be 4 (len data) ++ data].
Proof.
  apply (tcp_whole_reply_is_returned Z counter_randint counter_randint_range
           whole_reply_network "dc.example.com" "svc$" "EXAMPLE.COM" 0
           whole_reply_peer [x01; x02; x03]).
  - vm_compute. reflexivity.
  - vm_compute. reflexivity.
  - vm_compute. reflexivity.
  - reflexivity.
  - intros request. reflexivity.
Defined.

(** The error reply of the specification's example gives its salt. *)
Theorem error_reply_with_salt_returns_it :
  forall void_id : Z,
    get_salt_from_rep void_id reply_error_with_salt = Ok "REALM.COMhostSVC$".
Proof. intros void_id. vm_compute. reflexivity. Qed.

(** ** More on the transport *)

(** For names of a plausible length the request is built, and its length
    fits the four-byte prefix. *)
Lemma build_as_req_ok (G : Type) (randint : Z -> Z -> G -> Z * G)
    (username domain : string) (g : G) :
  (forall (a b : Z) (g : G), a <= b -> a <= fst (randint a b g) <= b) ->
  Z.of_nat (String.length username) < 2 ^ 20 ->
  Z.of_nat (String.length domain) < 2 ^ 20 ->
  exists data,
    build_as_req G randint username domain g = (Ok data, snd (randint 0 INT32_MAX_VAL g))
    /\ 0 <= len data < 2 ^ 31.
Proof.
  intros Hrange Hu Hd.
  pose proof (Hrange 0 INT32_MAX_VAL g ltac:(unfold INT32_MAX_VAL; lia)) as Hn.
  destruct (as_req_roundtrip username domain _ ltac:(lia) ltac:(lia) Hn)
    as (data & Hdump & _ & Hlen).
  exists data. rewrite build_as_req_eq, Hdump. split; [reflexivity|].
  pose proof (len_nonneg data). lia.
Qed.

(** Over UDP the request is sent as it is, with no length prefix, and the
    call returns the first datagram that comes back, cut to 1024 bytes; when
    no datagram comes back the call raises the timeout error. *)
Theorem udp_reply_is_first_datagram_cut_to_1024 :
  forall (G : Type) (randint : Z -> Z -> G -> Z * G),
    (forall (a b : Z) (g : G), a <= b -> a <= fst (randint a b g) <= b) ->
    forall (network : sock_type -> string -> Z -> option (bytes -> list bytes))
           (dc username domain : string) (g : G) (peer : bytes -> list bytes),
      Z.of_nat (String.length username) < 2 ^ 20 ->
      Z.of_nat (String.length domain) < 2 ^ 20 ->
      network SOCK_DGRAM dc KERBEROS_PORT = Some peer ->
      exists data : bytes,
        fst (build_as_req G randint username domain g) = Ok data
        /\ match peer data with
           | [] =>
               fst (send_as_req G randint network dc username domain true g) = Raise OSError
           | datagram :: _ =>
               exists s : socket,
                 fst (send_as_req G randint network dc username domain true g)
                 = Ok (take 1024 datagram, s)
                 /\ s_sent s = [data]
           end.
Proof.
  intros G randint Hrange network dc username domain g peer Hu Hd Hnet.
  destruct (build_as_req_ok G randint username domain g Hrange Hu Hd) as (data & Hreq & _).
  exists data. unfold send_as_req, connect. rewrite Hnet, Hreq. cbn [fst bind].
  split; [reflexivity|].
  unfold sendall, recv. cbn [s_type s_peer s_sent s_inbox app].
  change (1024 <? 0) with false. cbv iota.
  destruct (peer data) as [|datagram rest].
  - reflexivity.
  - eexists. split; reflexivity.
Qed.

Lemma udp_reply_is_first_datagram_cut_to_1024_witness :
  exists data : bytes,
    fst (build_as_req Z counter_randint "svc$" "EXAMPLE.COM" 0) = Ok data
    /\ match long_datagram_peer data with
       | [] =>
           fst (send_as_req Z counter_randint (network_of long_datagram_peer)
                  "dc.example.com" "svc$" "EXAMPLE.COM" true 0) = Raise OSError
       | datagram :: _ =>
           exists s : socket,
             fst (send_as_req Z counter_randint (network_of long_datagram_peer)
                    "dc.example.com" "svc$" "EXAMPLE.COM" true 0)
             = Ok (take 1024 datagram, s)
             /\ s_sent s = [data]
       end.
Proof.
  apply (udp_reply_is_first_datagram_cut_to_1024 Z counter_randint counter_randint_range
           (network_of long_datagram_peer) "dc.example.com" "svc$" "EXAMPLE.COM" 0
           long_datagram_peer).
  - vm_compute. reflexivity.
  - vm_compute. reflexivity.
  - reflexivity.
Defined.

(** Over TCP, once the connection is made: the request goes out behind its
    four-byte prefix, then come the two [recv]. *)
Lemma send_as_req_tcp (G : Type) (randint : Z -> Z -> G -> Z * G)
    (network : sock_type -> string -> Z -> option (bytes -> list bytes))
    (dc username domain : string) (g : G) (peer : bytes -> list bytes) :
  (forall (a b : Z) (g : G), a <= b -> a <= fst (randint a b g) <= b) ->
  Z.of_nat (String.length username) < 2 ^ 20 ->
  Z.of_nat (String.length domain) < 2 ^ 20 ->
  network SOCK_STREAM dc KERBEROS_PORT = Some peer ->
  exists data : bytes,
    fst (build_as_req G randint username domain g) = Ok data
    /\ send_as_req G randint network dc username domain false g
       = (let s := sendall (to_bytes_be 4 (len data) ++ data) (mkSocket SOCK_STREAM peer [] []) in
          '(prefix, s) <- recv 4 s ;;
          response_length <- struct_unpack_i prefix ;;
          recv response_length s,
          snd (randint 0 INT32_MAX_VAL g)).
Proof.
  intros Hrange Hu Hd Hnet.
  destruct (build_as_req_ok G randint username domain g Hrange Hu Hd) as (data & Hreq & Hlen).
  exists data. unfold send_as_req, connect. rewrite Hnet, Hreq. cbn [fst bind].
  split; [reflexivity|].
  rewrite (struct_pack_i_small (len data)) by lia. reflexivity.
Qed.

Lemma send_as_req_tcp_whole (G : Type) (randint : Z -> Z -> G -> Z * G)
    (network : sock_type -> string -> Z -> option (bytes -> list bytes))
    (dc username domain : string) (g : G) (peer : bytes -> list bytes) (body : bytes) :
  (forall (a b : Z) (g : G), a <= b -> a <= fst (randint a b g) <= b) ->
  Z.of_nat (String.length username) < 2 ^ 20 ->
  Z.of_nat (String.length domain) < 2 ^ 20 ->
  len body < 2 ^ 31 ->
  network SOCK_STREAM dc KERBEROS_PORT = Some peer ->
  (forall request, peer request = [to_bytes_be 4 (len body) ++ body]) ->
  exists (data : bytes) (s : socket),
    fst (build_as_req G randint username domain g) = Ok data
    /\ fst (send_as_req G randint network dc username domain false g) = Ok (body, s)
    /\ s_sent s = [to_bytes_be 4 (len data) ++ data].
Proof.
  intros Hrange Hu Hd Hb Hnet Hpeer.
  destruct (send_as_req_tcp G randint network dc username domain g peer Hrange Hu Hd Hnet)
    as (data & Hreq & ->).
  pose proof (len_nonneg body) as Hb0.
  exists data. cbn [fst].
  unfold sendall. cbn [s_type s_peer s_sent s_inbox app]. rewrite Hpeer.
  unfold recv at 1. cbn [s_type s_inbox s_peer s_sent].
  change (4 <? 0) with false. cbv iota.
  rewrite (take_app_exact 4), (drop_app_exact 4) by apply (len_to_bytes_be 4).
  cbn [bind]. rewrite struct_unpack_i_small by lia. cbn [bind].
  unfold recv. cbn [s_type s_inbox s_peer s_sent].
  destruct (len body <? 0) eqn:E; [apply Z.ltb_lt in E; lia|].
  destruct body as [|b body].
  - eexists. split; [exact Hreq|]. split; reflexivity.
  - rewrite take_all, drop_all.
    eexists. split; [exact Hreq|]. split; reflexivity.
Qed.

Lemma int_from_bytes_4 (b0 b1 b2 b3 : byte) :
  int_from_bytes [b0; b1; b2; b3]
  = ((Z_of_byte b0 * 256 + Z_of_byte b1) * 256 + Z_of_byte b2) * 256 + Z_of_byte b3.
Proof. unfold int_from_bytes. cbn [fold_left]. lia. Qed.

Lemma struct_unpack_i_negative (b0 b1 b2 b3 : byte) :
  128 <= Z_of_byte b0 ->
  exists n, struct_unpack_i [b0; b1; b2; b3] = Ok n /\ n < 0.
Proof.
  intros H0. unfold struct_unpack_i, int_from_bytes_signed.
  change (len [b0; b1; b2; b3]) with 4. change (4 =? 4) with true. cbv iota.
  rewrite int_from_bytes_4.
  pose proof (Z_of_byte_range b0). pose proof (Z_of_byte_range b1).
  pose proof (Z_of_byte_range b2). pose proof (Z_of_byte_range b3).
  change (8 * 4) with 32. change (0 <? 32) with true. cbn [andb].
  change (2 ^ (32 - 1)) with 2147483648. change (2 ^ 32) with 4294967296.
  destruct (2147483648 <=? _) eqn:E.
  - eexists. split; [reflexivity|]. lia.
  - apply Z.leb_gt in E. lia.
Qed.

(** Over TCP, a reply whose length prefix has its first bit set is read as a
    negative length (the prefix is unpacked as a signed integer), and the
    [recv] of that many bytes raises [ValueError]. *)
Theorem tcp_negative_length_prefix_raises_ValueError :
  forall (G : Type) (randint : Z -> Z -> G -> Z * G),
    (forall (a b : Z) (g : G), a <= b -> a <= fst (randint a b g) <= b) ->
    forall (network : sock_type -> string -> Z -> option (bytes -> list bytes))
           (dc username domain : string) (g : G) (peer : bytes -> list bytes)
           (b0 b1 b2 b3 : byte) (rest : bytes) (segments : list bytes),
      Z.of_nat (String.length username) < 2 ^ 20 ->
      Z.of_nat (String.length domain) < 2 ^ 20 ->
      network SOCK_STREAM dc KERBEROS_PORT = Some peer ->
      (forall request, peer request = (b0 :: b1 :: b2 :: b3 :: rest) :: segments) ->
      128 <= Z_of_byte b0 ->
      fst (send_as_req G randint network dc username domain false g)
      = Raise (ValueError NegativeBufsize).
Proof.
  intros G randint Hrange network dc username domain g peer b0 b1 b2 b3 rest segments
    Hu Hd Hnet Hpeer Hb0.
  destruct (send_as_req_tcp G randint network dc username domain g peer Hrange Hu Hd Hnet)
    as (data & _ & ->).
  cbn [fst]. unfold sendall. cbn [s_type s_peer s_sent s_inbox app]. rewrite Hpeer.
  unfold recv at 1. cbn [s_type s_inbox s_peer s_sent].
  change (4 <? 0) with false. cbv iota.
  change (take 4 (b0 :: b1 :: b2 :: b3 :: rest)) with [b0; b1; b2; b3].
  cbn [bind].
  destruct (struct_unpack_i_negative b0 b1 b2 b3 Hb0) as (n & -> & Hn). cbn [bind].
  unfold recv. apply Z.ltb_lt in Hn. rewrite Hn. reflexivity.
Qed.

Lemma tcp_negative_length_prefix_raises_ValueError_witness :
  fst (send_as_req Z counter_randint (network_of negative_prefix_peer)
         "dc.example.com" "svc$" "EXAMPLE.COM" false 0)
  = Raise (ValueError NegativeBufsize).
Proof.
  apply (tcp_negative_length_prefix_raises_ValueError Z counter_randint counter_randint_range
           (network_of negative_prefix_peer) "dc.example.com" "svc$" "EXAMPLE.COM" 0
           negative_prefix_peer xff xff xff xfd [x01; x02; x03] []).
  - vm_compute. reflexivity.
  - vm_compute. reflexivity.
  - reflexivity.
  - intros request. reflexivity.
  - vm_compute. discriminate.
Defined.

(** Over TCP, when the first segment of the reply holds fewer than four
    bytes, or the peer closes without sending any, the length prefix cannot be
    unpacked and the call raises [struct.error]. *)
Theorem tcp_short_length_prefix_raises_struct_error :
  forall (G : Type) (randint : Z -> Z -> G -> Z * G),
    (forall (a b : Z) (g : G), a <= b -> a <= fst (randint a b g) <= b) ->
    forall (network : sock_type -> string -> Z -> option (bytes -> list bytes))
           (dc username domain : string) (g : G) (peer : bytes -> list bytes),
      Z.of_nat (String.length username) < 2 ^ 20 ->
      Z.of_nat (String.length domain) < 2 ^ 20 ->
      network SOCK_STREAM dc KERBEROS_PORT = Some peer ->
      (forall request, len (hd [] (peer request)) < 4) ->
      fst (send_as_req G randint network dc username domain false g) = Raise StructError.
Proof.
  intros G randint Hrange network dc username domain g peer Hu Hd Hnet Hpeer.
  destruct (send_as_req_tcp G randint network dc username domain g peer Hrange Hu Hd Hnet)
    as (data & _ & ->).
  cbn [fst]. unfold sendall. cbn [s_type s_peer s_sent s_inbox app].
  specialize (Hpeer (to_bytes_be 4 (len data) ++ data)).
  unfold recv at 1. cbn [s_type s_inbox s_peer s_sent].
  change (4 <? 0) with false. cbv iota.
  destruct (peer _) as [|seg segs]; cbn [hd] in Hpeer; cbn [bind].
  - reflexivity.
  - assert (Ht : take 4 seg = seg).
    { unfold take. apply firstn_all2. unfold len in Hpeer. lia. }
    rewrite Ht. unfold struct_unpack_i.
    destruct (len seg =? 4) eqn:E; [apply Z.eqb_eq in E; lia|]. reflexivity.
Qed.

Lemma tcp_short_length_prefix_raises_struct_error_witness :
  fst (send_as_req Z counter_randint (network_of short_prefix_peer)
         "dc.example.com" "svc$" "EXAMPLE.COM" false 0)
  = Raise StructError.
Proof.
  apply (tcp_short_length_prefix_raises_struct_error Z counter_randint counter_randint_range
           (network_of short_prefix_peer) "dc.example.com" "svc$" "EXAMPLE.COM" 0
           short_prefix_peer).
  - vm_compute. reflexivity.
  - vm_compute. reflexivity.
  - reflexivity.
  - intros request. vm_compute. reflexivity.
Defined.

(** ** From the request to the salt *)

(** [get_salt_from_preauth] connects over TCP to port 88; when the
    connection fails it raises [OSError] and no nonce has been drawn. *)
Theorem unreachable_dc_raises_OSError_before_any_draw :
  forall (G : Type) (randint : Z -> Z -> G -> Z * G)
         (network : sock_type -> string -> Z -> option (bytes -> list bytes))
         (void_id : Z) (dc username domain : string) (g : G),
    network SOCK_STREAM dc 88 = None ->
    get_salt_from_preauth G randint network void_id dc username domain g
    = (Raise OSError, g).
Proof.
  intros G randint network void_id dc username domain g Hnet.
  unfold get_salt_from_preauth, send_as_req, connect.
  change KERBEROS_PORT with 88. rewrite Hnet. reflexivity.
Qed.

Lemma unreachable_dc_raises_OSError_before_any_draw_witness :
  get_salt_from_preauth Z counter_randint no_network 0
    "dc.example.com" "svc$" "EXAMPLE.COM" 7
  = (Raise OSError, 7).
Proof.
  apply (unreachable_dc_raises_OSError_before_any_draw Z counter_randint no_network 0
           "dc.example.com" "svc$" "EXAMPLE.COM" 7).
  reflexivity.
Defined.

(** [get_salt_from_preauth] is [get_salt_from_rep] applied to what
    [send_as_req] reads over TCP: when the reply arrives whole behind its
    length prefix, the outcome is that of [get_salt_from_rep] on the body. *)
Theorem preauth_reads_the_whole_tcp_reply :
  forall (G : Type) (randint : Z -> Z -> G -> Z * G),
    (forall (a b : Z) (g : G), a <= b -> a <= fst (randint a b g) <= b) ->
    forall (network : sock_type -> string -> Z -> option (bytes -> list bytes))
           (void_id : Z) (dc username domain : string) (g : G)
           (peer : bytes -> list bytes) (kdc_rep : bytes),
      Z.of_nat (String.length username) < 2 ^ 20 ->
      Z.of_nat (String.length domain) < 2 ^ 20 ->
      len kdc_rep < 2 ^ 31 ->
      network SOCK_STREAM dc KERBEROS_PORT = Some peer ->
      (forall request, peer request = [to_bytes_be 4 (len kdc_rep) ++ kdc_rep]) ->
      fst (get_salt_from_preauth G randint network void_id dc username domain g)
      = get_salt_from_rep void_id kdc_rep.
Proof.
  intros G randint Hrange network void_id dc username domain g peer kdc_rep
    Hu Hd Hb Hnet Hpeer.
  destruct (send_as_req_tcp_whole G randint network dc username domain g peer kdc_rep
              Hrange Hu Hd Hb Hnet Hpeer) as (data & s & _ & Hsend & _).
  unfold get_salt_from_preauth.
  destruct (send_as_req G randint network dc username domain false g) as [rep g'].
  cbn [fst] in *. rewrite Hsend. reflexivity.
Qed.

Lemma preauth_reads_the_whole_tcp_reply_witness :
  fst (get_salt_from_preauth Z counter_randint (network_of (kdc_peer reply_error_with_salt)) 0
         "dc.example.com" "svc$" "EXAMPLE.COM" 0)
  = get_salt_from_rep 0 reply_error_with_salt.
Proof.
  apply (preauth_reads_the_whole_tcp_reply Z counter_randint counter_randint_range
           (network_of (kdc_peer reply_error_with_salt)) 0
           "dc.example.com" "svc$" "EXAMPLE.COM" 0
           (kdc_peer reply_error_with_salt) reply_error_with_salt).
  - vm_compute. reflexivity.
  - vm_compute. reflexivity.
  - vm_compute. reflexivity.
  - reflexivity.
  - intros request. reflexivity.
Defined.

(** ** The request as the decoder sees it *)

Lemma load_explicit_ident (c t : Z) (s : spec) (data : bytes) (o : obj) :
  load (mkClass [(c, t)] s) data = Ok o ->
  exists x rest,
    _parse data = Ok (x, rest)
    /\ class_ (t_ident x) = c /\ method (t_ident x) = 1 /\ tag (t_ident x) = t.
Proof.
  unfold load, _build, _build_contents. cbn [explicit base _unwrap_explicit].
  intros H. apply bind_ok in H. destruct H as ([x rest] & Hp & H).
  exists x, rest. split; [exact Hp|].
  unfold check in H.
  destruct (class_ (t_ident x) =? c) eqn:E1; cbn [bind] in H; [|discriminate].
  destruct (method (t_ident x) =? 1) eqn:E2; cbn [bind] in H; [|discriminate].
  destruct (tag (t_ident x) =? t) eqn:E3; cbn [bind] in H; [|discriminate].
  apply Z.eqb_eq in E1, E2, E3. auto.
Qed.

(** The request is no reply: given back to [get_salt_from_rep], the bytes
    that [build_as_req] returns are refused with the module's exception, whose
    message carries the tag number of an AS-REQ. *)
Theorem own_request_is_refused_as_reply :
  forall (G : Type) (randint : Z -> Z -> G -> Z * G),
    (forall (a b : Z) (g : G), a <= b -> a <= fst (randint a b g) <= b) ->
    forall (void_id : Z) (username domain : string) (g : G),
      Z.of_nat (String.length username) < 2 ^ 63 ->
      Z.of_nat (String.length domain) < 2 ^ 63 ->
      exists data : bytes,
        fst (build_as_req G randint username domain g) = Ok data
        /\ get_salt_from_rep void_id data
           = Raise (Exception "Could not retrieve salt from AS_REP (tag number 10)").
Proof.
  intros G randint Hrange void_id username domain g Hu Hd.
  pose proof (Hrange 0 INT32_MAX_VAL g ltac:(unfold INT32_MAX_VAL; lia)) as Hn.
  destruct (as_req_roundtrip username domain _ Hu Hd Hn) as (data & Hdump & Hload & _).
  exists data. rewrite build_as_req_eq. cbn [fst]. split; [exact Hdump|].
  apply bind_ok in Hload. destruct Hload as (o & Hload & _).
  apply load_explicit_ident in Hload. destruct Hload as (x & rest & Hp & _ & _ & Ht).
  unfold get_salt_from_rep, Any_load. rewrite Hp. cbn [bind]. rewrite Ht.
  change (existsb (Z.eqb AS_REQ_TAG_NUMBER) _UNIVERSAL_SPECS) with true. cbv iota.
  cbn [bind]. rewrite Ht. reflexivity.
Qed.

Lemma own_request_is_refused_as_reply_witness :
  exists data : bytes,
    fst (build_as_req Z counter_randint "svc$" "EXAMPLE.COM" 0) = Ok data
    /\ get_salt_from_rep 0 data
       = Raise (Exception "Could not retrieve salt from AS_REP (tag number 10)").
Proof.
  apply (own_request_is_refused_as_reply Z counter_randint counter_randint_range 0
           "svc$" "EXAMPLE.COM" 0); vm_compute; reflexivity.
Defined.

(** Requests for different principals, realms or nonces are different
    byte strings. *)
Theorem build_as_req_tells_requests_apart :
  forall (G : Type) (randint : Z -> Z -> G -> Z * G),
    (forall (a b : Z) (g : G), a <= b -> a <= fst (randint a b g) <= b) ->
    forall (username1 domain1 username2 domain2 : string) (g1 g2 : G),
      Z.of_nat (String.length username1) < 2 ^ 63 ->
      Z.of_nat (String.length domain1) < 2 ^ 63 ->
      Z.of_nat (String.length username2) < 2 ^ 63 ->
      Z.of_nat (String.length domain2) < 2 ^ 63 ->
      fst (build_as_req G randint username1 domain1 g1)
      = fst (build_as_req G randint username2 domain2 g2) ->
      username1 = username2 /\ domain1 = domain2
      /\ fst (randint 0 INT32_MAX_VAL g1) = fst (randint 0 INT32_MAX_VAL g2).
Proof.
  intros G randint Hrange u1 d1 u2 d2 g1 g2 Hu1 Hd1 Hu2 Hd2 Heq.
  pose proof (Hrange 0 INT32_MAX_VAL g1 ltac:(unfold INT32_MAX_VAL; lia)) as Hn1.
  pose proof (Hrange 0 INT32_MAX_VAL g2 ltac:(unfold INT32_MAX_VAL; lia)) as Hn2.
  destruct (as_req_roundtrip u1 d1 _ Hu1 Hd1 Hn1) as (data1 & Hdump1 & Hload1 & _).
  destruct (as_req_roundtrip u2 d2 _ Hu2 Hd2 Hn2) as (data2 & Hdump2 & Hload2 & _).
  rewrite !build_as_req_eq in Heq. cbn [fst] in Heq.
  rewrite Hdump1, Hdump2 in Heq. inversion Heq; subst data2.
  rewrite Hload1 in Hload2. unfold as_req_native in Hload2.
  inversion Hload2. auto.
Qed.

Lemma build_as_req_tells_requests_apart_witness :
  "svc$" = "svc$" /\ "EXAMPLE.COM" = "EXAMPLE.COM"
  /\ fst (counter_randint 0 INT32_MAX_VAL 3) = fst (counter_randint 0 INT32_MAX_VAL 3).
Proof.
  apply (build_as_req_tells_requests_apart Z counter_randint counter_randint_range
           "svc$" "EXAMPLE.COM" "svc$" "EXAMPLE.COM" 3 3).
  - vm_compute. reflexivity.
  - vm_compute. reflexivity.
  - vm_compute. reflexivity.
  - vm_compute. reflexivity.
  - reflexivity.
Defined.

(** ** More on the offline salt *)

Lemma rstrip_list_all {A : Type} (p : A -> bool) (l : list A) :
  forallb p l = true -> rstrip_list p l = [].
Proof.
  induction l as [|a l IH]; cbn [forallb rstrip_list]; [reflexivity|].
  intros H. apply andb_prop in H. destruct H as [Ha Hl].
  rewrite (IH Hl), Ha. reflexivity.
Qed.

Lemma rstrip_list_app_all {A : Type} (p : A -> bool) (l suffix : list A) :
  forallb p suffix = true -> rstrip_list p (l ++ suffix) = rstrip_list p l.
Proof.
  intros H. induction l as [|a l IH]; cbn [app rstrip_list].
  - apply rstrip_list_all. exact H.
  - rewrite IH. reflexivity.
Qed.

Lemma forallb_repeat {A : Type} (p : A -> bool) (a : A) (n : nat) :
  p a = true -> forallb p (repeat a n) = true.
Proof. intros H. induction n as [|n IH]; cbn; [reflexivity|]. rewrite H, IH. reflexivity. Qed.

(** Account names that differ only in the [$] they end with have the same
    salt. *)
Theorem heuristic_ignores_trailing_dollars :
  forall (account_name realm : string) (n : nat),
    get_salt_from_heuristic
      (account_name ++ string_of_list_ascii (repeat "$"%char n))%string realm
    = get_salt_from_heuristic account_name realm.
Proof.
  intros account_name realm n. unfold get_salt_from_heuristic, rstrip.
  rewrite list_ascii_of_string_app, list_ascii_of_string_of_list_ascii.
  rewrite rstrip_list_app_all; [reflexivity|].
  apply forallb_repeat. reflexivity.
Qed.

Lemma in_all_ascii (c : ascii) : In c all_ascii.
Proof.
  unfold all_ascii. apply in_map_iff. exists (nat_of_ascii c).
  split.
  - apply ascii_nat_embedding.
  - apply in_seq. pose proof (nat_ascii_bounded c). lia.
Qed.

Lemma case_of_ascii_table :
  forallb (fun c =>
             if (N_of_ascii c <? 128)%N then
               Ascii.eqb (upper_char (upper_char c)) (upper_char c)
               && Ascii.eqb (lower_char (upper_char c)) (lower_char c)
               && Ascii.eqb (upper_char (lower_char c)) (upper_char c)
               && Ascii.eqb (lower_char (lower_char c)) (lower_char c)
             else true) all_ascii = true.
Proof. vm_compute. reflexivity. Qed.

Lemma case_of_ascii (c : ascii) :
  (N_of_ascii c < 128)%N ->
  upper_char (upper_char c) = upper_char c /\ lower_char (upper_char c) = lower_char c
  /\ upper_char (lower_char c) = upper_char c /\ lower_char (lower_char c) = lower_char c.
Proof.
  intros H. pose proof case_of_ascii_table as T. rewrite forallb_forall in T.
  specialize (T c (in_all_ascii c)). apply N.ltb_lt in H. rewrite H in T.
  repeat (apply andb_prop in T; destruct T as [T ?]).
  repeat match goal with E : Ascii.eqb _ _ = true |- _ => apply Ascii.eqb_eq in E end.
  auto.
Qed.

Lemma map_string_map_string (f g : ascii -> ascii) (s : string) :
  map_string f (map_string g s) = map_string (fun c => f (g c)) s.
Proof.
  unfold map_string. rewrite list_ascii_of_string_of_list_ascii, map_map. reflexivity.
Qed.

Lemma map_string_ext_ascii (f g : ascii -> ascii) (s : string) :
  is_ascii s -> (forall c, (N_of_ascii c < 128)%N -> f c = g c) ->
  map_string f s = map_string g s.
Proof.
  unfold is_ascii, map_string. intros Hs Hfg. f_equal.
  induction Hs as [|c l Hc _ IH]; cbn [map]; [reflexivity|].
  rewrite (Hfg c Hc), IH. reflexivity.
Qed.

(** The salt does not depend on the letter case in which an ASCII realm is
    written: the realm in upper case and the realm in lower case give the salt
    of the realm as written. *)
Theorem heuristic_ignores_case_of_ascii_realm :
  forall account_name realm : string,
    is_ascii realm ->
    get_salt_from_heuristic account_name (upper realm)
    = get_salt_from_heuristic account_name realm
    /\ get_salt_from_heuristic account_name (lower realm)
       = get_salt_from_heuristic account_name realm.
Proof.
  intros account_name realm H. unfold get_salt_from_heuristic, upper, lower.
  rewrite !map_string_map_string.
  rewrite (map_string_ext_ascii (fun c => upper_char (upper_char c)) upper_char realm H)
    by (intros c Hc; apply (case_of_ascii c Hc)).
  rewrite (map_string_ext_ascii (fun c => lower_char (upper_char c)) lower_char realm H)
    by (intros c Hc; apply (case_of_ascii c Hc)).
  rewrite (map_string_ext_ascii (fun c => upper_char (lower_char c)) upper_char realm H)
    by (intros c Hc; apply (case_of_ascii c Hc)).
  rewrite (map_string_ext_ascii (fun c => lower_char (lower_char c)) lower_char realm H)
    by (intros c Hc; apply (case_of_ascii c Hc)).
  split; reflexivity.
Qed.

Lemma heuristic_ignores_case_of_ascii_realm_witness :
  get_salt_from_heuristic "SVC$" (upper "Example.Com")
  = get_salt_from_heuristic "SVC$" "Example.Com"
  /\ get_salt_from_heuristic "SVC$" (lower "Example.Com")
     = get_salt_from_heuristic "SVC$" "Example.Com".
Proof.
  apply (heuristic_ignores_case_of_ascii_realm "SVC$" "Example.Com").
  unfold is_ascii. cbn [list_ascii_of_string].
  repeat constructor.
Defined.

(** ** Bytes after the reply *)

Lemma take_app_le {A : Type} (n : Z) (l junk : list A) :
  n <= len l -> take n (l ++ junk) = take n l.
Proof.
  intros H. unfold take, len in *. rewrite firstn_app.
  replace (Z.to_nat n - List.length l)%nat with O by lia.
  cbn [firstn]. apply app_nil_r.
Qed.

Lemma drop_app_le {A : Type} (n : Z) (l junk : list A) :
  n <= len l -> drop n (l ++ junk) = drop n l ++ junk.
Proof.
  intros H. unfold drop, len in *. rewrite skipn_app.
  replace (Z.to_nat n - List.length l)%nat with O by lia.
  reflexivity.
Qed.

Lemma _parse_long_tag_app (acc : Z) (data : bytes) (t : Z) (d junk : bytes) :
  _parse_long_tag acc data = Ok (t, d) ->
  _parse_long_tag acc (data ++ junk) = Ok (t, d ++ junk).
Proof.
  revert acc. induction data as [|b data IH]; intros acc H; cbn [_parse_long_tag app] in *.
  - discriminate.
  - destruct (_ && _); [discriminate|].
    destruct (Z.shiftr (Z_of_byte b) 7 =? 0).
    + inversion H; subst. reflexivity.
    + apply IH. exact H.
Qed.

Lemma _parse_tag_app (first_octet : Z) (data : bytes) (t : Z) (d junk : bytes) :
  _parse_tag first_octet data = Ok (t, d) ->
  _parse_tag first_octet (data ++ junk) = Ok (t, d ++ junk).
Proof.
  unfold _parse_tag. destruct (Z.land first_octet 31 =? 31).
  - intros H. apply bind_ok in H. destruct H as ([t' d'] & Hl & H).
    rewrite (_parse_long_tag_app _ _ _ _ junk Hl). cbn [bind].
    destruct (t' <? 31); [discriminate|]. inversion H; subst. reflexivity.
  - intros H. inversion H; subst. reflexivity.
Qed.

Lemma _parse_length_app (data : bytes) (n : Z) (d junk : bytes) :
  _parse_length data = Ok (n, d) ->
  _parse_length (data ++ junk) = Ok (n, d ++ junk).
Proof.
  unfold _parse_length. destruct data as [|b rest]; [discriminate|]. cbn [app].
  destruct (Z.shiftr (Z_of_byte b) 7 =? 0).
  - intros H. inversion H; subst. reflexivity.
  - destruct (Z.land (Z_of_byte b) 127 =? 0); [discriminate|].
    destruct (len rest <? Z.land (Z_of_byte b) 127) eqn:E; [discriminate|].
    apply Z.ltb_ge in E. intros H. inversion H; subst; clear H.
    assert (E' : (len (rest ++ junk) <? Z.land (Z_of_byte b) 127) = false).
    { apply Z.ltb_ge. rewrite len_app. pose proof (len_nonneg junk). lia. }
    rewrite E', take_app_le, drop_app_le by exact E. reflexivity.
Qed.

(** The decoder reads one element off the front of its input: bytes added
    after the element are handed back untouched. *)
Lemma _parse_app (data : bytes) (x : tlv) (rest junk : bytes) :
  _parse data = Ok (x, rest) -> _parse (data ++ junk) = Ok (x, rest ++ junk).
Proof.
  unfold _parse. destruct data as [|first data]; [discriminate|]. cbn [app].
  intros H. apply bind_ok in H. destruct H as ([tg d1] & Ht & H).
  apply bind_ok in H. destruct H as ([n d2] & Hn & H).
  rewrite (_parse_tag_app _ _ _ _ junk Ht). cbn [bind].
  rewrite (_parse_length_app _ _ _ junk Hn). cbn [bind].
  destruct (len d2 <? n) eqn:E; [discriminate|]. apply Z.ltb_ge in E.
  inversion H; subst; clear H.
  assert (E' : (len (d2 ++ junk) <? n) = false).
  { apply Z.ltb_ge. rewrite len_app. pose proof (len_nonneg junk). lia. }
  rewrite E', take_app_le, drop_app_le by exact E. reflexivity.
Qed.

(** [load] is not strict: [get_salt_from_rep] gives the same outcome when
    bytes follow the first element of the reply. *)
Theorem bytes_after_the_reply_are_ignored :
  forall (void_id : Z) (kdc_rep : bytes) (x : tlv) (rest junk : bytes),
    _parse kdc_rep = Ok (x, rest) ->
    get_salt_from_rep void_id (kdc_rep ++ junk) = get_salt_from_rep void_id kdc_rep.
Proof.
  intros void_id kdc_rep x rest junk H.
  pose proof (_parse_app _ _ _ junk H) as H'.
  unfold get_salt_from_rep, Any_load, load. rewrite H, H'. reflexivity.
Qed.

Lemma bytes_after_the_reply_are_ignored_witness :
  get_salt_from_rep 0 (reply_error_with_salt ++ [x00; xff])
  = get_salt_from_rep 0 reply_error_with_salt.
Proof.
  eapply (fun x H => bytes_after_the_reply_are_ignored 0 reply_error_with_salt x []
                       [x00; xff] H).
  vm_compute. reflexivity.
Defined.

(** ** Where the interpreter shows *)

Lemma same_or_void_refl {A : Type} (wrap : string -> A) (v1 v2 : Z) (r : result A) :
  same_or_void wrap v1 v2 r r.
Proof. left. reflexivity. Qed.




(** ** Replies with a field missing *)

(** A KRB-ERROR that asks for pre-authentication and carries no e-data
    makes the call raise [TypeError]: [load] is given [None]. *)
Theorem preauth_required_without_e_data_raises_TypeError :
  forall (void_id : Z) (kdc_rep : bytes) (any : tlv) (err : obj),
    Any_load kdc_rep = Ok any ->
    tag (t_ident any) = KRB_ERROR_TAG_NUMBER ->
    load KRB_ERROR kdc_rep = Ok err ->
    (o <- getitem err "error-code" ;; obj_native o) = Ok (NInt KDC_ERR_PREAUTH_REQUIRED) ->
    getitem err "e-data" = Ok VOID ->
    get_salt_from_rep void_id kdc_rep = Raise (TypeError NotBytes).
Proof.
  intros void_id kdc_rep any err Hany Htag Herr Hcode Hdata.
  unfold get_salt_from_rep. rewrite Hany. cbn [bind]. rewrite Htag, Z.eqb_refl.
  rewrite Herr. cbn [bind]. rewrite Hcode. cbn [bind eq_int]. rewrite Z.eqb_refl.
  rewrite Hdata. reflexivity.
Qed.

Lemma preauth_required_without_e_data_raises_TypeError_witness :
  get_salt_from_rep 0 reply_error_no_e_data = Raise (TypeError NotBytes).
Proof.
  eapply (fun any err H1 H2 H3 H4 H5 =>
            preauth_required_without_e_data_raises_TypeError 0 reply_error_no_e_data
              any err H1 H2 H3 H4 H5).
  - vm_compute. reflexivity.
  - vm_compute. reflexivity.
  - vm_compute. reflexivity.
  - vm_compute. reflexivity.
  - vm_compute. reflexivity.
Defined.

(** An AS-REP that carries no padata makes the call raise [TypeError]: the
    loop is over [None]. *)
Theorem as_rep_without_padata_raises_TypeError :
  forall (void_id : Z) (kdc_rep : bytes) (any : tlv) (as_rep : obj),
    Any_load kdc_rep = Ok any ->
    tag (t_ident any) = AS_REP_TAG_NUMBER ->
    load KRB_AS_REP kdc_rep = Ok as_rep ->
    getitem as_rep "padata" = Ok VOID ->
    get_salt_from_rep void_id kdc_rep = Raise (TypeError NotIterable).
Proof.
  intros void_id kdc_rep any as_rep Hany Htag Hrep Hpa.
  unfold get_salt_from_rep. rewrite Hany. cbn [bind]. rewrite Htag.
  change (AS_REP_TAG_NUMBER =? KRB_ERROR_TAG_NUMBER) with false. cbv iota.
  rewrite Z.eqb_refl, Hrep. cbn [bind]. rewrite Hpa. reflexivity.
Qed.

Lemma as_rep_without_padata_raises_TypeError_witness :
  get_salt_from_rep 0 reply_as_rep_no_padata = Raise (TypeError NotIterable).
Proof.
  eapply (fun any as_rep H1 H2 H3 H4 =>
            as_rep_without_padata_raises_TypeError 0 reply_as_rep_no_padata
              any as_rep H1 H2 H3 H4).
  - vm_compute. reflexivity.
  - vm_compute. reflexivity.
  - vm_compute. reflexivity.
  - vm_compute. reflexivity.
Defined.

(** ** Replies cut short *)

Lemma _parse_long_tag_prefix (acc : Z) (p q : bytes) (t : Z) (d : bytes) :
  _parse_long_tag acc (p ++ q) = Ok (t, d) ->
  _parse_long_tag acc p = Raise (ValueError InsufficientData)
  \/ exists d', _parse_long_tag acc p = Ok (t, d') /\ d = d' ++ q.
Proof.
  revert acc. induction p as [|b p IH]; intros acc H.
  - left. reflexivity.
  - cbn [_parse_long_tag app] in *.
    destruct (_ && _); [discriminate|].
    destruct (Z.shiftr (Z_of_byte b) 7 =? 0).
    + inversion H; subst. right. exists p. split; reflexivity.
    + apply IH. exact H.
Qed.

Lemma _parse_tag_prefix (first_octet : Z) (p q : bytes) (t : Z) (d : bytes) :
  _parse_tag first_octet (p ++ q) = Ok (t, d) ->
  _parse_tag first_octet p = Raise (ValueError InsufficientData)
  \/ exists d', _parse_tag first_octet p = Ok (t, d') /\ d = d' ++ q.
Proof.
  unfold _parse_tag. destruct (Z.land first_octet 31 =? 31).
  - intros H. apply bind_ok in H. destruct H as ([t' d0] & Hl & H).
    destruct (t' <? 31) eqn:E; [discriminate|]. inversion H; subst; clear H.
    destruct (_parse_long_tag_prefix _ _ _ _ _ Hl) as [->|(d' & -> & ->)].
    + left. reflexivity.
    + right. exists d'. cbn [bind]. rewrite E. split; reflexivity.
  - intros H. inversion H; subst. right. exists p. split; reflexivity.
Qed.

Lemma _parse_length_prefix (p q : bytes) (n : Z) (d : bytes) :
  _parse_length (p ++ q) = Ok (n, d) ->
  _parse_length p = Raise (ValueError InsufficientData)
  \/ exists d', _parse_length p = Ok (n, d') /\ d = d' ++ q.
Proof.
  unfold _parse_length. destruct p as [|b rest]; [left; reflexivity|]. cbn [app].
  destruct (Z.shiftr (Z_of_byte b) 7 =? 0).
  - intros H. inversion H; subst. right. exists rest. split; reflexivity.
  - destruct (Z.land (Z_of_byte b) 127 =? 0); [discriminate|].
    destruct (len (rest ++ q) <? Z.land (Z_of_byte b) 127); [discriminate|].
    intros H. inversion H; subst; clear H.
    destruct (len rest <? Z.land (Z_of_byte b) 127) eqn:E; [left; reflexivity|].
    apply Z.ltb_ge in E. right.
    rewrite take_app_le, drop_app_le by exact E.
    eexists. split; reflexivity.
Qed.

Lemma len_drop {A : Type} (n : Z) (l : list A) :
  len (drop n l) = len l - Z.min (len l) (Z.max 0 n).
Proof. unfold len, drop. rewrite length_skipn. lia. Qed.

(** An element whose last bytes are missing is not decoded: the decoder
    reports that the data are insufficient. *)
Lemma _parse_prefix (p q : bytes) (x : tlv) (rest : bytes) :
  _parse (p ++ q) = Ok (x, rest) -> len rest < len q ->
  _parse p = Raise (ValueError InsufficientData).
Proof.
  unfold _parse. destruct p as [|first p]; [reflexivity|]. cbn [app].
  intros H Hq. apply bind_ok in H. destruct H as ([tg d1] & Ht & H).
  apply bind_ok in H. destruct H as ([n d2] & Hn & H).
  destruct (_parse_tag_prefix _ _ _ _ _ Ht) as [->|(d1' & -> & ->)]; [reflexivity|].
  cbn [bind].
  destruct (_parse_length_prefix _ _ _ _ Hn) as [->|(d2' & -> & ->)]; [reflexivity|].
  cbn [bind].
  destruct (len (d2' ++ q) <? n) eqn:E; [discriminate|]. apply Z.ltb_ge in E.
  inversion H; subst; clear H.
  rewrite len_drop, len_app in Hq. rewrite len_app in E.
  pose proof (len_nonneg d2'). pose proof (len_nonneg q).
  destruct (len d2' <? n) eqn:E2; [reflexivity|]. apply Z.ltb_ge in E2. lia.
Qed.

Lemma take_drop {A : Type} (n : Z) (l : list A) : take n l ++ drop n l = l.
Proof. unfold take, drop. apply firstn_skipn. Qed.

(** A reply cut short is not decoded: when the reply stops before the end
    of its first element, [get_salt_from_rep] raises the [ValueError] of the
    decoder, whatever the element holds. *)
Theorem reply_cut_short_raises_ValueError :
  forall (void_id : Z) (kdc_rep : bytes) (x : tlv) (rest : bytes) (n : Z),
    _parse kdc_rep = Ok (x, rest) ->
    0 <= n < len kdc_rep - len rest ->
    get_salt_from_rep void_id (take n kdc_rep) = Raise (ValueError InsufficientData).
Proof.
  intros void_id kdc_rep x rest n H Hn.
  rewrite <- (take_drop n kdc_rep) in H.
  apply _parse_prefix in H.
  - unfold get_salt_from_rep, Any_load. rewrite H. reflexivity.
  - rewrite len_drop. lia.
Qed.

Lemma reply_cut_short_raises_ValueError_witness :
  get_salt_from_rep 0 (take 40 reply_error_with_salt) = Raise (ValueError InsufficientData).
Proof.
  eapply (fun x H => reply_cut_short_raises_ValueError 0 reply_error_with_salt x [] 40 H).
  - vm_compute. reflexivity.
  - vm_compute. split; [discriminate|reflexivity].
Defined.

(** Over TCP, when the reply arrives in two segments, the first holding the
    length prefix and the beginning of the reply, [get_salt_from_preauth]
    decodes the beginning alone and raises the [ValueError] of the decoder:
    the rest of the reply is not read. *)
Theorem preauth_on_a_reply_in_two_segments_raises_ValueError :
  forall (G : Type) (randint : Z -> Z -> G -> Z * G),
    (forall (a b : Z) (g : G), a <= b -> a <= fst (randint a b g) <= b) ->
    forall (network : sock_type -> string -> Z -> option (bytes -> list bytes))
           (void_id : Z) (dc username domain : string) (g : G)
           (peer : bytes -> list bytes) (x : tlv) (first later : bytes)
           (segments : list bytes),
      Z.of_nat (String.length username) < 2 ^ 20 ->
      Z.of_nat (String.length domain) < 2 ^ 20 ->
      _parse (first ++ later) = Ok (x, []) ->
      first <> [] -> later <> [] ->
      len (first ++ later) < 2 ^ 31 ->
      network SOCK_STREAM dc KERBEROS_PORT = Some peer ->
      (forall request,
          peer request = (to_bytes_be 4 (len (first ++ later)) ++ first) :: later :: segments) ->
      fst (get_salt_from_preauth G randint network void_id dc username domain g)
      = Raise (ValueError InsufficientData).
Proof.
  intros G randint Hrange network void_id dc username domain g peer x first later segments
    Hu Hd Hparse Hfirst Hlater Hlen Hnet Hpeer.
  destruct (send_as_req_tcp G randint network dc username domain g peer Hrange Hu Hd Hnet)
    as (data & _ & Hsend).
  unfold get_salt_from_preauth. rewrite Hsend. cbn [fst].
  unfold sendall. cbn [s_type s_peer s_sent s_inbox app]. rewrite Hpeer.
  unfold recv at 1. cbn [s_type s_inbox s_peer s_sent].
  change (4 <? 0) with false. cbv iota.
  rewrite (take_app_exact 4), (drop_app_exact 4) by apply (len_to_bytes_be 4).
  cbn [bind].
  pose proof (len_nonneg first) as Hf0. pose proof (len_nonneg later) as Hl0.
  assert (Hl1 : 0 < len later).
  { destruct later; [congruence|]. rewrite len_cons. pose proof (len_nonneg later). lia. }
  rewrite struct_unpack_i_small by (rewrite len_app in *; lia). cbn [bind].
  destruct first as [|b first]; [congruence|].
  unfold recv. cbn [s_type s_inbox s_peer s_sent].
  destruct (len ((b :: first) ++ later) <? 0) eqn:E;
    [apply Z.ltb_lt in E; rewrite len_app in E; lia|].
  cbn [bind].
  assert (Ht : take (len ((b :: first) ++ later)) (b :: first) = b :: first).
  { unfold take. apply firstn_all2. rewrite len_app in *. unfold len in *. lia. }
  rewrite Ht.
  apply _parse_prefix in Hparse; [|change (len []) with 0; lia].
  unfold get_salt_from_rep, Any_load. rewrite Hparse. reflexivity.
Qed.

Lemma preauth_on_a_reply_in_two_segments_raises_ValueError_witness :
  fst (get_salt_from_preauth Z counter_randint
         (network_of (cut_kdc_peer (take 40 reply_error_with_salt)
                                   (drop 40 reply_error_with_salt))) 0
         "dc.example.com" "svc$" "EXAMPLE.COM" 0)
  = Raise (ValueError InsufficientData).
Proof.
  eapply (fun x H =>
            preauth_on_a_reply_in_two_segments_raises_ValueError Z counter_randint
              counter_randint_range
              (network_of (cut_kdc_peer (take 40 reply_error_with_salt)
                                        (drop 40 reply_error_with_salt))) 0
              "dc.example.com" "svc$" "EXAMPLE.COM" 0
              (cut_kdc_peer (take 40 reply_error_with_salt) (drop 40 reply_error_with_salt))
              x (take 40 reply_error_with_salt) (drop 40 reply_error_with_salt) []
              ltac:(vm_compute; reflexivity) ltac:(vm_compute; reflexivity) H
              ltac:(vm_compute; discriminate) ltac:(vm_compute; discriminate)
              ltac:(vm_compute; reflexivity) eq_refl (fun request => eq_refl)).
  vm_compute. reflexivity.
Defined.

(** ** Encoding and decoding lists *)







(** ** Encoding and decoding the parts of a reply *)





(** ** Replies built by the encoder *)


Lemma Forall2_map_same {A B : Type} (P : B -> B -> Prop) (f : A -> B) (l : list A) :
  Forall (fun a => P (f a) (f a)) l -> Forall2 P (map f l) (map f l).
Proof. induction 1; cbn [map]; constructor; assumption. Qed.









